(** * play.py: a tabular TD(lambda) learner for 2048

    A shallow embedding of [play.py] (Python 2) and the properties of its
    learning core.  Python floats are IEEE 754 binary64 numbers and are
    modelled by Rocq's primitive floats, whose [+], [-], [*] and comparisons
    are the same operations; Python ints are unbounded and are modelled by
    [Z]; exceptions are modelled by an error monad. *)

From Stdlib Require Import ZArith Floats QArith Lia List Permutation.
From stdpp Require Import gmap list.

Local Open Scope Z_scope.

(** ** Python runtime: exceptions and list subscripts *)

Inductive exn : Set :=
  IndexError | KeyError | AttributeError | ValueError | OverflowError.

#[global] Instance exn_eq_dec : EqDecision exn.
Proof. solve_decision. Defined.

Inductive result (A : Type) : Type :=
| Ok (a : A)
| Raise (e : exn).
Arguments Ok {A} a.
Arguments Raise {A} e.

#[global] Instance result_ret : MRet result := fun A a => Ok a.
#[global] Instance result_bind : MBind result := fun A B f m =>
  match m with
  | Ok a => f a
  | Raise e => Raise e
  end.

(** [try: m except e: handler] *)
Definition try_except {A} (m : result A) (e : exn) (handler : result A) : result A :=
  match m with
  | Ok a => Ok a
  | Raise e' => if decide (e' = e) then handler else Raise e'
  end.

(** A list subscript [l[i]]: a negative index counts from the end, and an
    index that is still out of range after that raises [IndexError]. *)
Definition norm_index (len : nat) (i : Z) : result nat :=
  let i' := if i <? 0 then i + Z.of_nat len else i in
  if (i' <? 0) || (Z.of_nat len <=? i') then Raise IndexError
  else Ok (Z.to_nat i').

Definition getitem {A} (l : list A) (i : Z) : result A :=
  k ← norm_index (length l) i;
  match l !! k with
  | Some x => Ok x
  | None => Raise IndexError
  end.

Definition setitem {A} (l : list A) (i : Z) (x : A) : result (list A) :=
  k ← norm_index (length l) i;
  Ok (<[k := x]> l).

(** ** class Node *)

Record Node : Set := mkNode {
  action_quality : list float;
  action_count : list Z
}.

(** [Node.__init__] *)
Definition Node_init : Node :=
  mkNode (replicate 4 0%float) (replicate 4 0).

(** [Node.get_estimate] *)
Definition Node_get_estimate (self : Node) (action : Z) : result float :=
  getitem (action_quality self) action.

(** [Node.update_action]: two augmented assignments, each a subscript read
    followed by a subscript write. *)
Definition update_action (self : Node) (action : Z) (score alpha : float)
  : result Node :=
  c ← getitem (action_count self) action;
  cnt ← setitem (action_count self) action (c + 1);
  q ← getitem (action_quality self) action;
  qual ← setitem (action_quality self) action (q + (score - q) * alpha)%float;
  Ok (mkNode qual cnt).

(** [Node.visited] *)
Definition visited (self : Node) : Z :=
  fold_left Z.add (action_count self) 0.

(** Every node the program builds keeps its two four-slot lists. *)
Definition wf_node (n : Node) : Prop :=
  length (action_quality n) = 4%nat ∧ length (action_count n) = 4%nat.

(** ** class Knowledge *)

(** A state is the tuple of the cells of a board. *)
Abbreviation state := (list Z).

Record Knowledge : Type := mkKnowledge {
  nodes : gmap (list Z) Node
}.

(** [Knowledge.__init__] *)
Definition Knowledge_init : Knowledge := mkKnowledge ∅.

(** [d[k]] on a dict *)
Definition dict_getitem (d : gmap (list Z) Node) (k : state) : result Node :=
  match d !! k with
  | Some n => Ok n
  | None => Raise KeyError
  end.

(** [Knowledge.add] *)
Definition add (self : Knowledge) (st : state) (action : Z) (score alpha : float)
  : result Knowledge :=
  let nodes1 :=
    if decide (is_Some (nodes self !! st)) then nodes self
    else <[st := Node_init]> (nodes self) in
  nd ← dict_getitem nodes1 st;
  nd' ← update_action nd action score alpha;
  Ok (mkKnowledge (<[st := nd']> nodes1)).

(** [Knowledge.get_node_for_state]: [None] is the absent-node sentinel. *)
Definition get_node_for_state (self : Knowledge) (st : state)
  : result (option Node) :=
  try_except (n ← dict_getitem (nodes self) st; Ok (Some n)) KeyError (Ok None).

(** A method call [x.get_estimate(action)] where [x] may be [None]. *)
Definition call_get_estimate (x : option Node) (action : Z) : result float :=
  match x with
  | Some n => Node_get_estimate n action
  | None => Raise AttributeError
  end.

(** [Knowledge.get_estimate] *)
Definition get_estimate (self : Knowledge) (st : state) (action : Z)
  : result float :=
  try_except (x ← get_node_for_state self st; call_get_estimate x action)
             AttributeError (Ok 0%float).

(** [Knowledge.size] *)
Definition Knowledge_size (self : Knowledge) : nat := size (nodes self).

Definition wf_knowledge (k : Knowledge) : Prop :=
  ∀ st n, nodes k !! st = Some n → wf_node n.

(** The fold of a list of updates into the table, in order. *)
Fixpoint add_all (k : Knowledge) (l : list (state * Z * float)) (alpha : float)
  : result Knowledge :=
  match l with
  | [] => Ok k
  | (st, a, v) :: l' => k' ← add k st a v alpha; add_all k' l' alpha
  end.

(** Readers of one slot of the table; an absent state reads as a fresh node. *)
Definition node_of (k : Knowledge) (st : state) : Node :=
  default Node_init (nodes k !! st).

Definition count_of (k : Knowledge) (st : state) (a : Z) : result Z :=
  getitem (action_count (node_of k st)) a.

Definition quality_of (k : Knowledge) (st : state) (a : Z) : result float :=
  getitem (action_quality (node_of k st)) a.

(** [Knowledge.dump]: the value printed on each line is kept as the pair of
    the state and its node.  [sorted(..., key=visited, reverse=True)] is a
    stable sort in descending key order. *)
Fixpoint insert_by_visited (x : state * Node) (l : list (state * Node))
  : list (state * Node) :=
  match l with
  | [] => [x]
  | y :: l' =>
      if visited (snd x) <? visited (snd y) then y :: insert_by_visited x l'
      else x :: y :: l'
  end.

Definition sorted_by_visited (items : list (state * Node)) : list (state * Node) :=
  foldr insert_by_visited [] items.

Fixpoint dump_loop (self : Knowledge) (limit : Z) (items : list (state * Node))
    (count : Z) (out : list (state * Node)) : result (list (state * Node)) :=
  match items with
  | [] => Ok out
  | (n, nod) :: rest =>
      nd ← dict_getitem (nodes self) n;
      let out := out ++ [(n, nd)] in
      let count := count + 1 in
      if negb (limit =? 0) && (limit <? count) then Ok out
      else dump_loop self limit rest count out
  end.

Definition dump (self : Knowledge) (limit : Z) : result (list (state * Node)) :=
  dump_loop self limit (sorted_by_visited (map_to_list (nodes self))) 0 [].

(** ** Builtins used by [best_action] and by the main loop *)

(** [max(l)] keeps the first item and replaces it by every later item that
    compares greater. *)
Definition py_max (l : list float) : result float :=
  match l with
  | [] => Raise ValueError
  | x :: xs => Ok (fold_left (fun m y => if (m <? y)%float then y else m) xs x)
  end.

Definition enumerate {A} (l : list A) : list (Z * A) :=
  imap (fun i x => (Z.of_nat i, x)) l.

(** [range(a, b)] *)
Definition range (a b : Z) : list Z :=
  map (fun i => a + Z.of_nat i) (seq 0 (Z.to_nat (b - a))).

Definition len {A} (l : list A) : Z := Z.of_nat (length l).

(** [for i in l: body] over a state that the body updates or aborts. *)
Fixpoint for_each {I S} (l : list I) (body : I → S → result S) (s : S) : result S :=
  match l with
  | [] => Ok s
  | i :: l' => s' ← body i s; for_each l' body s'
  end.

(** The candidate list built by [Node.best_action] before the random draw. *)
Definition joint_best_actions (self : Node) : result (list Z) :=
  max_quality ← py_max (action_quality self);
  Ok (fold_left
        (fun joint '(i, quality) =>
           if (quality =? max_quality)%float then joint ++ [i] else joint)
        (enumerate (action_quality self)) []).

(** ** The environment and the random number generator

    The gym environment and Python's [random] module are outside the
    program.  Their state is the [World]; each call reads and advances it. *)
Class Runtime (World : Type) : Type := {
  (** [env.reset()] *)
  env_reset : World → list Z * World;
  (** [env.step(action)], giving the observation, the reward and [done] *)
  env_step : Z → World → list Z * float * bool * World;
  (** [env.action_space.sample()] *)
  action_space_sample : World → Z * World;
  (** [random.uniform(0, 1)] *)
  random_uniform : World → float * World;
  (** [int(random.random() * n)], the subscript drawn by [random.choice]
      on a sequence of length [n] *)
  random_below : nat → World → nat * World
}.

Record episode_vars : Type := mkVars {
  observation : list Z;
  cumulative_reward : float;
  history : list (state * Z * float);
  best_actions_used : Z;
  total_moves : Z;
  t_var : Z
}.

Section Program.
Context {World : Type} `{Runtime World}.
(** [x ** k] on a float and an int: the power computed by the C library's
    [pow], or the [OverflowError] that Python raises when that overflows. *)
Variable fpow : float → Z → result float.

(** [random.choice(seq)] is [seq[int(random() * len(seq))]]. *)
Definition random_choice {A} (l : list A) (w : World) : result (A * World) :=
  let '(j, w) := random_below (length l) w in
  match l !! j with
  | Some x => Ok (x, w)
  | None => Raise IndexError
  end.

(** [Node.best_action] *)
Definition best_action (self : Node) (w : World) : result (Z * World) :=
  joint ← joint_best_actions self;
  random_choice joint w.

(** Lines 129-142: the action chosen in one step, with the updated
    [best_actions_used] counter.  A [Node] object is truthy, [None] is
    not. *)
Definition choose_action (epsilon : float) (knowledge : Knowledge)
    (obs : list Z) (used : Z) (w : World) : result (Z * Z * World) :=
  let '(r, w) := random_uniform w in
  if (epsilon <? r)%float then
    x ← get_node_for_state knowledge obs;
    if bool_decide (is_Some x) then
      state_node ← get_node_for_state knowledge obs;
      match state_node with
      | Some nd =>
          '(action, w) ← best_action nd w;
          Ok (action, used + 1, w)
      | None => Raise AttributeError
      end
    else
      let '(action, w) := action_space_sample w in
      Ok (action, used, w)
  else
    let '(action, w) := action_space_sample w in
    Ok (action, used, w).

(** Lines 126-153: [for t in ts: ...; if done: total_moves += t + 1; break].
    The boolean of the result tells whether the loop was left by [break]. *)
Fixpoint episode_loop (ts : list Z) (epsilon : float) (knowledge : Knowledge)
    (v : episode_vars) (w : World) : result (episode_vars * bool * World) :=
  match ts with
  | [] => Ok (v, false, w)
  | t :: ts' =>
      '(action, used, w) ←
        choose_action epsilon knowledge (observation v) (best_actions_used v) w;
      let last_observation := observation v in
      let '(obs, reward, done, w) := env_step action w in
      let hist := history v ++ [(last_observation, action, reward)] in
      let cr := (cumulative_reward v + reward)%float in
      if done then
        Ok (mkVars obs cr hist used (total_moves v + (t + 1)) t, true, w)
      else
        episode_loop ts' epsilon knowledge
          (mkVars obs cr hist used (total_moves v) t) w
  end.

(** Lines 158-171: the TD(lambda) targets of a history. *)
Definition td_base (llambda : float) (history : list (state * Z * float))
  : result (list float) :=
  for_each history
    (fun h td =>
       let td_factor := 0 in
       p ← fpow llambda td_factor;
       let lambda_multiplier := ((1 - llambda) * p)%float in
       Ok (td ++ [(snd h * lambda_multiplier)%float]))
    [].

Definition td_lambda_estimate (llambda : float)
    (history : list (state * Z * float)) : result (list float) :=
  td ← td_base llambda history;
  for_each (range 1 (Z.min 10 (len history)))
    (fun td_factor td =>
       p ← fpow llambda td_factor;
       let lambda_multiplier := ((1 - llambda) * p)%float in
       for_each (range 0 (len history - td_factor))
         (fun i td =>
            old ← getitem td i;
            h ← getitem history (i + td_factor);
            setitem td i (old + snd h * lambda_multiplier)%float)
         td)
    td.

(** Lines 176-179: the current estimates read for the error statistic. *)
Definition read_estimates (knowledge : Knowledge)
    (history : list (state * Z * float)) : result (list float) :=
  for_each history
    (fun h estimates =>
       e ← get_estimate knowledge (fst (fst h)) (snd (fst h));
       Ok (estimates ++ [e]))
    [].

(** Lines 187-188: the fold of the history into the table. *)
Definition update_knowledge (knowledge : Knowledge)
    (history : list (state * Z * float)) (td : list float) (alpha : float)
  : result Knowledge :=
  for_each (enumerate history)
    (fun '(idx, h) knowledge =>
       target ← getitem td idx;
       add knowledge (fst (fst h)) (snd (fst h)) target alpha)
    knowledge.

(** One iteration of the loop over episodes (lines 122-188), without the
    report line and its rolling statistics.  The result also records the
    step count [t + 1] and whether the episode ended by [done]. *)
Definition run_episode (alpha epsilon llambda : float)
    (knowledge : Knowledge) (moves : Z) (w : World)
  : result (Knowledge * Z * (Z * bool) * World) :=
  let '(obs, w) := env_reset w in
  '(v, done, w) ←
    episode_loop (range 0 1000) epsilon knowledge
      (mkVars obs 0%float [] 0 moves 0) w;
  td ← td_lambda_estimate llambda (history v);
  _ ← read_estimates knowledge (history v);
  knowledge ← update_knowledge knowledge (history v) td alpha;
  Ok (knowledge, total_moves v, (t_var v + 1, done), w).

(** Lines 120-196: the loop over episodes, with the log of the episodes
    played. *)
Fixpoint main_loop (episodes : nat) (alpha epsilon llambda : float)
    (knowledge : Knowledge) (moves : Z) (log : list (Z * bool)) (w : World)
  : result (Knowledge * Z * list (Z * bool) * World) :=
  match episodes with
  | O => Ok (knowledge, moves, log, w)
  | S n =>
      '(knowledge, moves, entry, w) ←
        run_episode alpha epsilon llambda knowledge moves w;
      main_loop n alpha epsilon llambda knowledge moves (log ++ [entry]) w
  end.
End Program.


(** ** Auxiliary notions used in the statements *)

(** The number of updates in [l] that target the slot [(st, a)]. *)
Definition targets (st : state) (a : Z) (l : list (state * Z * float)) : Z :=
  len (filter (λ x, fst x = (st, a)) l).

(** All the actions of a list of steps are slots of a node. *)
Definition valid_actions (l : list (state * Z * float)) : Prop :=
  Forall (λ x, 0 ≤ snd (fst x) < 4) l.

(** Three boards of the game, flattened row by row. *)
Definition board_a : state := [0; 0; 0; 0; 0; 0; 0; 0; 0; 0; 0; 0; 0; 2; 0; 2].
Definition board_b : state := [0; 0; 0; 0; 0; 0; 0; 0; 0; 0; 0; 2; 0; 0; 0; 4].
Definition board_c : state := [0; 0; 0; 0; 0; 0; 0; 0; 0; 0; 0; 0; 2; 2; 0; 0].

(** A listing in descending order of visits. *)
Definition descending (l : list (state * Node)) : Prop :=
  ∀ i j x y, (i ≤ j)%nat → l !! i = Some x → l !! j = Some y →
             visited (snd y) ≤ visited (snd x).

(** The probability that [random.choice(l)] returns [a] when the subscript
    is drawn uniformly: the share of the positions of [l] that hold [a]. *)
Definition choice_prob (l : list Z) (a : Z) : Q :=
  Qmake (len (filter (λ x, x = a) l)) (Pos.of_nat (length l)).

(** A node whose slot 0 holds a NaN, as left by an update with a NaN step
    size. *)
Definition nan_node : Node := mkNode [nan; 0%float; 0%float; 0%float] [1; 0; 0; 0].

(** ** A small deterministic world for the examples

    The environment alternates between two boards, pays [1.0] per step and
    signals [done] at step [toy_limit] (never, when the limit is 0); each
    reset takes the limit of the next game from [toy_plan].  The random
    draws are functions of the step counter. *)
Record toy_world : Set := mkToy {
  toy_steps : nat;
  toy_limit : nat;
  toy_plan : list nat
}.

#[global] Instance toy_runtime : Runtime toy_world := {|
  env_reset w :=
    (board_a, mkToy 0 (hd (toy_limit w) (toy_plan w)) (tl (toy_plan w)));
  env_step a w :=
    let s := S (toy_steps w) in
    (if Nat.even s then board_a else board_b, 1%float, Nat.eqb s (toy_limit w),
     mkToy s (toy_limit w) (toy_plan w));
  action_space_sample w := (Z.of_nat (toy_steps w mod 4), w);
  random_uniform w := (0x1p-1%float, w);
  random_below n w := ((toy_steps w mod n)%nat, w)
|}.

(** What the program expects of its collaborators: the action space holds
    the four moves, and the subscript drawn for a non-empty sequence is one of
    its positions. *)
Class RuntimeLaws (World : Type) `{Runtime World} : Prop := {
  sample_in_range : ∀ w, 0 ≤ fst (action_space_sample w) < 4;
  random_below_lt : ∀ n w, (0 < n)%nat → (fst (random_below n w) < n)%nat
}.


(** The updates that an episode folds into the table: each step of the
    history with its target. *)
Definition td_updates (history : list (state * Z * float)) (td : list float)
  : list (state * Z * float) :=
  zip_with (λ h target, (fst (fst h), snd (fst h), target)) history td.

(** The course of the step loop, told from the calls it makes: from the
    observation [obs], the counter [used] and the world [w], the steps
    [hist] are recorded, each with the action chosen for it and the reward
    that [env.step] returned.  [env.step] returned [done = False] at every step
    but the last; at the last step it returned [done]. *)
Inductive played {World} `{Runtime World} (epsilon : float) (knowledge : Knowledge)
  : list Z → Z → World → list (state * Z * float) → bool → World → Prop :=
| played_none obs used w :
    played epsilon knowledge obs used w [] false w
| played_done obs used w action used' w1 obs' reward w2 :
    choose_action epsilon knowledge obs used w = Ok (action, used', w1) →
    env_step action w1 = (obs', reward, true, w2) →
    played epsilon knowledge obs used w [(obs, action, reward)] true w2
| played_step obs used w action used' w1 obs' reward w2 hist done w3 :
    choose_action epsilon knowledge obs used w = Ok (action, used', w1) →
    env_step action w1 = (obs', reward, false, w2) →
    played epsilon knowledge obs' used' w2 hist done w3 →
    played epsilon knowledge obs used w ((obs, action, reward) :: hist) done w3.

(** The course of a run of episodes: each episode starts from [env.reset()],
    is played on the table as the episodes before it left it, and has every
    step of its history, with its target, folded into the table; the log keeps
    its number of steps and its [done] flag. *)
Inductive episodes_played {World} `{Runtime World}
    (fpow : float → Z → result float) (alpha epsilon llambda : float)
  : Knowledge → World → list (Z * bool) → Knowledge → World → Prop :=
| episodes_none k w :
    episodes_played fpow alpha epsilon llambda k w [] k w
| episodes_cons k w hist done w1 td k1 log k2 w2 :
    played epsilon k (fst (env_reset w)) 0 (snd (env_reset w)) hist done w1 →
    td_lambda_estimate fpow llambda hist = Ok td →
    add_all k (td_updates hist td) alpha = Ok k1 →
    episodes_played fpow alpha epsilon llambda k1 w1 log k2 w2 →
    episodes_played fpow alpha epsilon llambda k w ((len hist, done) :: log) k2 w2.

(** The moves that a log of episodes, each with its step count and its
    [done] flag, adds to [total_moves]. *)
Definition counted_moves (log : list (Z * bool)) : Z :=
  foldr (λ (e : Z * bool) acc, (if snd e then fst e else 0) + acc) 0 log.

(** A table with three states, visited three times, twice and once. *)
Definition three_states : list (state * Z * float) :=
  [(board_a, 0, 4%float); (board_b, 1, 0%float); (board_a, 2, 8%float);
   (board_c, 3, 4%float); (board_a, 0, 0%float); (board_b, 1, 4%float)].

(** ** The return computation as the specification words it

    "for i in 0..n-1: target[i] = r[i] * (1 - lambda);
     for k in 1 .. min(K, n-1): weight = (1 - lambda) * lambda^k;
       for i in 0 .. n-1-k: target[i] += r[i+k] * weight",
    with both ends of each range included.  The specification has [K = 10]. *)
Definition spec_td_pass (fpow : float → Z → float) (llambda : float)
    (r : list float) (target : list float) (k : nat) : list float :=
  let weight := ((1 - llambda) * fpow llambda (Z.of_nat k))%float in
  fold_left
    (λ target i,
       <[i := (default 0 (target !! i) + default 0 (r !! (i + k)%nat) * weight)%float]>
         target)
    (seq 0 (length r - k)) target.

Definition spec_td_targets (fpow : float → Z → float) (K : nat) (llambda : float)
    (r : list float) : list float :=
  fold_left (spec_td_pass fpow llambda r)
    (seq 1 (Nat.min K (length r - 1)))
    (map (λ ri, ri * (1 - llambda))%float r).

(** A power function by repeated multiplication, for the examples: on a
    power of two such as [0.5] every product is exact, so that it returns
    what the C library's [pow] returns there. *)
Definition pow_by_mult (x : float) (k : Z) : float :=
  Z.iter k (λ y, y * x)%float 1%float.

(** What the program expects of [**]: the power 0 of any float is [1.0], and
    a power of a base in [0, 1) with an exponent that is not negative is
    computed without [OverflowError]. *)
Class PowLaws (fpow : float → Z → result float) : Prop := {
  pow_zero : ∀ x, fpow x 0 = Ok 1%float;
  pow_unit_interval : ∀ x k,
    (0 <=? x)%float = true → (x <? 1)%float = true → 0 ≤ k →
    ∃ p, fpow x k = Ok p
}.

(** The value of a power that is computed without error. *)
Definition pow_value (fpow : float → Z → result float) (x : float) (k : Z)
  : float :=
  match fpow x k with
  | Ok p => p
  | Raise _ => nan
  end.

(** [**] for the examples, on exponents that are not negative: the power by
    repeated multiplication, and [OverflowError] when a finite base of
    magnitude above 1 gives an infinite power. *)
Definition py_pow (x : float) (k : Z) : result float :=
  let p := pow_by_mult x k in
  if is_infinity p && ((1 <? x) || (x <? -1))%float && negb (is_infinity x)
  then Raise OverflowError
  else Ok p.

(** Histories of the examples: the rewards [1, 0, 0, 0], and ten rewards
    [0] followed by a reward [1]. *)
Definition history_one_reward : list (state * Z * float) :=
  [(board_a, 0, 1%float); (board_b, 1, 0%float); (board_a, 2, 0%float);
   (board_b, 3, 0%float)].

Definition history_eleven : list (state * Z * float) :=
  replicate 10 (board_a, 0, 0%float) ++ [(board_b, 1, 1%float)].

(** ** Notions used in the further properties *)

(** The states that a list of updates targets, and the number of updates
    that target the state [st]. *)
Definition states_of (l : list (state * Z * float)) : list state :=
  (λ x, fst (fst x)) <$> l.

Definition state_targets (st : state) (l : list (state * Z * float)) : Z :=
  len (filter (λ s, s = st) (states_of l)).

(** The target of step [i] in closed form: the reward of the step and of
    the next steps, up to nine of them, each times its weight, added from
    left to right. *)
Definition td_closed (fpow : float → Z → float) (llambda : float)
    (r : list float) (i : nat) : float :=
  fold_left
    (λ acc k,
       (acc + default 0 (r !! (i + k)%nat)
              * ((1 - llambda) * fpow llambda (Z.of_nat k)))%float)
    (seq 1 (Nat.min 9 (length r - 1 - i)))
    (default 0 (r !! i) * ((1 - llambda) * fpow llambda 0%Z))%float.

(** The observed returns of the updates of [l] that target the slot
    [(st, a)], in order. *)
Definition slot_returns (st : state) (a : Z) (l : list (state * Z * float))
  : list float :=
  snd <$> filter (λ x, fst x = (st, a)) l.

(** Lines 119 and 191-192: [high_score] starts at [0.0] and each episode
    runs [if cumulative_reward > high_score: high_score = cumulative_reward]. *)
Definition update_high_score (high_score cumulative_reward : float) : float :=
  if (high_score <? cumulative_reward)%float then cumulative_reward else high_score.

Definition high_score_after (cumulative_rewards : list float) : float :=
  fold_left update_high_score cumulative_rewards 0%float.
(** * Properties *)

(** ** Binary64 arithmetic

    The facts about float operations that the program relies on, derived
    from the specification of the primitive operations. *)

Lemma Prim2SF_one : Prim2SF 1%float = S754_finite false 4503599627370496 (-52).
Proof. reflexivity. Qed.

Lemma Prim2SF_zero : Prim2SF 0%float = S754_zero false.
Proof. reflexivity. Qed.

(** Multiplying by [1.0] is exact. *)
Lemma float_mul_1_r (x : float) : (x * 1)%float = x.
Proof.
  apply Prim2SF_inj. rewrite mul_spec, Prim2SF_one.
  pose proof (Prim2SF_valid x) as Hv.
  destruct (Prim2SF x) as [s|s| |s m e];
    try reflexivity; try (destruct s; reflexivity).
  unfold SF64mul, SFmul.
  unfold SpecFloat.valid_binary, bounded, canonical_mantissa in Hv.
  apply andb_prop in Hv as [Hc Hb]. apply Z.eqb_eq in Hc. apply Z.leb_le in Hb.
  rewrite Pos.mul_comm.
  replace (xorb s false) with s by (destruct s; reflexivity).
  unfold binary_round_aux, shr_fexp.
  cbv beta iota fix delta [Pos.mul]. cbn [Zdigits2 digits2_pos].
  set (d := digits2_pos m) in *.
  match goal with |- context [fexp prec emax (Z.pos ?p + (e + -52))] =>
    replace (fexp prec emax (Z.pos p + (e + -52))) with e
  end.
  2:{ rewrite <- Hc at 1. f_equal. lia. }
  replace (e - (e + -52)) with 52 by lia.
  cbn [shr shr_record_of_loc SpecFloat.iter_pos shr_1 shr_m loc_of_shr_record
       round_nearest_even orb].
  replace (e + -52 + 52) with e by lia.
  cbn [Zdigits2]. fold d. rewrite Hc, Z.sub_diag.
  cbn [shr shr_m].
  destruct (Z.leb_spec e (emax - prec)); [reflexivity|lia].
Qed.

(** Subtracting [0.0] is exact. *)
Lemma float_sub_0_r (x : float) : (x - 0)%float = x.
Proof.
  apply Prim2SF_inj. rewrite sub_spec, Prim2SF_zero.
  destruct (Prim2SF x) as [[]|[]| |[] m e]; reflexivity.
Qed.

(** Adding to [0.0] is exact, except that [0.0 + -0.0] is [0.0]. *)
Lemma float_add_0_l (x : float) : x ≠ (-0)%float → (0 + x)%float = x.
Proof.
  intros Hx. apply Prim2SF_inj. rewrite add_spec, Prim2SF_zero.
  destruct (Prim2SF x) as [[]|[]| |[] m e] eqn:E; try reflexivity.
  exfalso. apply Hx. apply Prim2SF_inj. rewrite E. reflexivity.
Qed.

Ltac cmp_cases :=
  repeat match goal with
  | H : context [Pos.compare_cont Eq ?a ?b] |- _ =>
      change (Pos.compare_cont Eq a b) with (Pos.compare a b) in H
  | |- context [Pos.compare_cont Eq ?a ?b] =>
      change (Pos.compare_cont Eq a b) with (Pos.compare a b)
  end;
  repeat match goal with
  | H : context [Z.compare ?a ?b] |- _ => destruct (Z.compare_spec a b)
  | |- context [Z.compare ?a ?b] => destruct (Z.compare_spec a b)
  | H : context [Pos.compare ?a ?b] |- _ => destruct (Pos.compare_spec a b)
  | |- context [Pos.compare ?a ?b] => destruct (Pos.compare_spec a b)
  end; simpl in *; subst; try discriminate; try reflexivity; try lia.

Lemma SFcompare_lt_trans (a b c : spec_float) :
  SFcompare a b = Some Lt → SFcompare b c = Some Lt → SFcompare a c = Some Lt.
Proof.
  destruct a as [[]|[]| |[] m1 e1], b as [[]|[]| |[] m2 e2], c as [[]|[]| |[] m3 e3];
    simpl; try discriminate; try reflexivity; intros H1 H2; f_equal;
    injection H1 as H1; injection H2 as H2; cmp_cases.
Qed.

Lemma SFcompare_eq_lt (a b c : spec_float) :
  SFcompare a b = Some Eq → SFcompare b c = Some Lt → SFcompare a c = Some Lt.
Proof.
  destruct a as [[]|[]| |[] m1 e1], b as [[]|[]| |[] m2 e2], c as [[]|[]| |[] m3 e3];
    simpl; try discriminate; try reflexivity; intros H1 H2; f_equal;
    injection H1 as H1; injection H2 as H2; cmp_cases.
Qed.

Lemma SFcompare_antisym (a b : spec_float) :
  SFcompare b a = option_map CompOpp (SFcompare a b).
Proof.
  destruct a as [[]|[]| |[] m1 e1], b as [[]|[]| |[] m2 e2];
    simpl; try reflexivity; f_equal; cmp_cases.
Qed.

Lemma float_ltb_trans (x y z : float) :
  (x <? y)%float = true → (y <? z)%float = true → (x <? z)%float = true.
Proof.
  rewrite !ltb_spec. unfold SFltb.
  destruct (SFcompare (Prim2SF x) (Prim2SF y)) as [[]|] eqn:E1; try discriminate.
  destruct (SFcompare (Prim2SF y) (Prim2SF z)) as [[]|] eqn:E2; try discriminate.
  by rewrite (SFcompare_lt_trans _ _ _ E1 E2).
Qed.

(** An item equal to the maximum is below whatever the maximum is below. *)
Lemma float_eqb_ltb (x y z : float) :
  (x =? y)%float = true → (y <? z)%float = true → (x <? z)%float = true.
Proof.
  rewrite FloatAxioms.eqb_spec, !ltb_spec. unfold SFeqb, SFltb.
  destruct (SFcompare (Prim2SF x) (Prim2SF y)) as [[]|] eqn:E1; try discriminate.
  destruct (SFcompare (Prim2SF y) (Prim2SF z)) as [[]|] eqn:E2; try discriminate.
  by rewrite (SFcompare_eq_lt _ _ _ E1 E2).
Qed.

Lemma float_eqb_refl (x : float) : is_nan x = false → (x =? x)%float = true.
Proof. unfold is_nan. by intros ?%negb_false_iff. Qed.

(** [r <= e] excludes [r > e]; for numbers, the two are complementary. *)
Lemma float_leb_not_gt (r e : float) :
  (r <=? e)%float = true → (e <? r)%float = false.
Proof.
  rewrite leb_spec, ltb_spec. unfold SFleb, SFltb.
  rewrite (SFcompare_antisym (Prim2SF r) (Prim2SF e)).
  by destruct (SFcompare (Prim2SF r) (Prim2SF e)) as [[]|].
Qed.

Lemma SFcompare_nan (a b : spec_float) :
  SFcompare a b = None → a = S754_nan ∨ b = S754_nan.
Proof. destruct a as [[]|[]| |[] ? ?], b as [[]|[]| |[] ? ?]; simpl; auto; discriminate. Qed.

Lemma is_nan_Prim2SF (x : float) : is_nan x = false → Prim2SF x ≠ S754_nan.
Proof.
  unfold is_nan. rewrite FloatAxioms.eqb_spec. intros Hx E. rewrite E in Hx. discriminate.
Qed.

Lemma float_not_gt_leb (r e : float) :
  is_nan r = false → is_nan e = false →
  (e <? r)%float = false → (r <=? e)%float = true.
Proof.
  intros Hr He. rewrite leb_spec, ltb_spec. unfold SFleb, SFltb.
  rewrite (SFcompare_antisym (Prim2SF r) (Prim2SF e)).
  destruct (SFcompare (Prim2SF r) (Prim2SF e)) as [[]|] eqn:E; try done.
  intros _. apply SFcompare_nan in E as [E|E]; exfalso;
    [apply (is_nan_Prim2SF r Hr E)|apply (is_nan_Prim2SF e He E)].
Qed.

Lemma SFcompare_refl (a : spec_float) : a = S754_nan ∨ SFcompare a a = Some Eq.
Proof.
  destruct a as [[]|[]| |[] m e]; simpl; auto; right;
    by rewrite Z.compare_refl, Pos.compare_cont_refl.
Qed.

Lemma is_nan_true_Prim2SF (x : float) : is_nan x = true → Prim2SF x = S754_nan.
Proof.
  unfold is_nan. rewrite FloatAxioms.eqb_spec. unfold SFeqb. intros Hx.
  destruct (SFcompare_refl (Prim2SF x)) as [|Hn]; [done|].
  rewrite Hn in Hx. discriminate.
Qed.

(** A NaN is below nothing, and nothing is below itself. *)
Lemma float_nan_ltb (x y : float) : is_nan x = true → (x <? y)%float = false.
Proof. intros Hx. rewrite ltb_spec, (is_nan_true_Prim2SF x Hx). reflexivity. Qed.

Lemma float_ltb_irrefl (x : float) : (x <? x)%float = false.
Proof.
  rewrite ltb_spec. unfold SFltb.
  destruct (SFcompare_refl (Prim2SF x)) as [->|Hn]; [done|].
  by rewrite Hn.
Qed.

Lemma float_ltb_not_nan (x y : float) : (x <? y)%float = true → is_nan y = false.
Proof.
  rewrite ltb_spec. unfold SFltb. intros Hlt.
  destruct (is_nan y) eqn:E; [|done].
  rewrite (is_nan_true_Prim2SF y E) in Hlt.
  by destruct (Prim2SF x) as [[]|[]| |[] ? ?].
Qed.

Lemma SFcompare_neg_trans (a b c : spec_float) :
  b ≠ S754_nan →
  SFcompare b c ≠ Some Lt → SFcompare a b ≠ Some Lt → SFcompare a c ≠ Some Lt.
Proof.
  destruct a as [[]|[]| |[] m1 e1], b as [[]|[]| |[] m2 e2], c as [[]|[]| |[] m3 e3];
    simpl; try done; intros _ H1 H2 H3; injection H3 as H3; exfalso;
    cmp_cases; congruence.
Qed.

(** Among numbers, what is not below [m] is not below anything that [m] is
    not below. *)
Lemma float_ltb_neg_trans (x m y : float) :
  is_nan m = false →
  (m <? y)%float = false → (x <? m)%float = false → (x <? y)%float = false.
Proof.
  intros Hm. rewrite !ltb_spec. unfold SFltb. intros H1 H2.
  pose proof (SFcompare_neg_trans (Prim2SF x) (Prim2SF m) (Prim2SF y)
                (is_nan_Prim2SF m Hm)) as Hn.
  destruct (SFcompare (Prim2SF x) (Prim2SF y)) as [[]|]; try done.
  exfalso. apply Hn; try done.
  - by destruct (SFcompare (Prim2SF m) (Prim2SF y)) as [[]|].
  - by destruct (SFcompare (Prim2SF x) (Prim2SF m)) as [[]|].
Qed.

Lemma SFcompare_eq_trans (a b c : spec_float) :
  SFcompare a b = Some Eq → SFcompare b c = Some Eq → SFcompare a c = Some Eq.
Proof.
  destruct a as [[]|[]| |[] m1 e1], b as [[]|[]| |[] m2 e2], c as [[]|[]| |[] m3 e3];
    simpl; try discriminate; try reflexivity; intros H1 H2; f_equal;
    injection H1 as H1; injection H2 as H2; cmp_cases.
Qed.

Lemma float_eqb_sym (x y : float) : (x =? y)%float = (y =? x)%float.
Proof.
  rewrite !FloatAxioms.eqb_spec. unfold SFeqb.
  rewrite (SFcompare_antisym (Prim2SF x) (Prim2SF y)).
  by destruct (SFcompare (Prim2SF x) (Prim2SF y)) as [[]|].
Qed.

Lemma float_eqb_trans (x y z : float) :
  (x =? y)%float = true → (y =? z)%float = true → (x =? z)%float = true.
Proof.
  rewrite !FloatAxioms.eqb_spec. unfold SFeqb.
  destruct (SFcompare (Prim2SF x) (Prim2SF y)) as [[]|] eqn:E1; try discriminate.
  destruct (SFcompare (Prim2SF y) (Prim2SF z)) as [[]|] eqn:E2; try discriminate.
  by rewrite (SFcompare_eq_trans _ _ _ E1 E2).
Qed.

(** ** Subscripts *)

Lemma bind_Ok {A B} (m : result A) (f : A → result B) (b : B) :
  m ≫= f = Ok b ↔ ∃ a, m = Ok a ∧ f a = Ok b.
Proof.
  destruct m as [a|e]; simpl; split.
  - eauto.
  - intros (a' & [= ->] & Hf). exact Hf.
  - discriminate.
  - intros (a' & [=] & _).
Qed.

Lemma norm_index_inr (n : nat) (i : Z) :
  0 ≤ i < Z.of_nat n → norm_index n i = Ok (Z.to_nat i).
Proof.
  intros Hi. unfold norm_index.
  destruct (Z.ltb_spec i 0); [lia|].
  destruct (Z.ltb_spec i 0); [lia|].
  destruct (Z.leb_spec (Z.of_nat n) i); [lia|]. reflexivity.
Qed.

Lemma norm_index_wrap (n : nat) (i : Z) :
  - Z.of_nat n ≤ i < 0 → norm_index n i = Ok (Z.to_nat (i + Z.of_nat n)).
Proof.
  intros Hi. unfold norm_index.
  destruct (Z.ltb_spec i 0); [|lia].
  destruct (Z.ltb_spec (i + Z.of_nat n) 0); [lia|].
  destruct (Z.leb_spec (Z.of_nat n) (i + Z.of_nat n)); [lia|]. reflexivity.
Qed.

Lemma norm_index_out (n : nat) (i : Z) :
  Z.of_nat n ≤ i ∨ i < - Z.of_nat n → norm_index n i = Raise IndexError.
Proof.
  intros Hi. unfold norm_index.
  destruct (Z.ltb_spec i 0).
  - destruct (Z.ltb_spec (i + Z.of_nat n) 0); [reflexivity|lia].
  - destruct (Z.ltb_spec i 0); [lia|].
    destruct (Z.leb_spec (Z.of_nat n) i); [reflexivity|lia].
Qed.

Lemma norm_index_lt (n : nat) (i : Z) (k : nat) :
  norm_index n i = Ok k → (k < n)%nat.
Proof.
  unfold norm_index.
  destruct (Z.ltb_spec i 0);
    match goal with |- context [(?x <? 0) || _] => destruct (Z.ltb_spec x 0) end;
    simpl; try discriminate;
    match goal with |- context [?a <=? ?b] => destruct (Z.leb_spec a b) end;
    try discriminate; intros [= <-]; lia.
Qed.

Lemma getitem_inr {A} (l : list A) (i : Z) (x : A) :
  0 ≤ i → l !! Z.to_nat i = Some x → getitem l i = Ok x.
Proof.
  intros Hi Hx. unfold getitem.
  pose proof (lookup_lt_Some _ _ _ Hx).
  rewrite norm_index_inr by lia. simpl. by rewrite Hx.
Qed.

Lemma getitem_wrap {A} (l : list A) (i : Z) (x : A) :
  i < 0 → 0 ≤ i + len l → l !! Z.to_nat (i + len l) = Some x → getitem l i = Ok x.
Proof.
  unfold len. intros Hi Hi' Hx. unfold getitem.
  rewrite norm_index_wrap by lia. simpl. by rewrite Hx.
Qed.

Lemma getitem_out {A} (l : list A) (i : Z) :
  len l ≤ i ∨ i < - len l → getitem l i = Raise IndexError.
Proof. intros Hi. unfold getitem. by rewrite norm_index_out. Qed.

Lemma getitem_Ok_lookup {A} (l : list A) (i : Z) (x : A) :
  getitem l i = Ok x → ∃ k, norm_index (length l) i = Ok k ∧ l !! k = Some x.
Proof.
  unfold getitem. intros (k & Hk & Hx)%bind_Ok.
  exists k. split; [done|]. destruct (l !! k); by inversion Hx.
Qed.

Lemma setitem_inr {A} (l : list A) (i : Z) (x : A) :
  0 ≤ i < len l → setitem l i x = Ok (<[Z.to_nat i := x]> l).
Proof. intros Hi. unfold setitem. by rewrite norm_index_inr. Qed.

Lemma lookup_is_Some_lt {A} (l : list A) (k : nat) :
  (k < length l)%nat → ∃ x, l !! k = Some x.
Proof. intros Hk. by apply lookup_lt_is_Some in Hk as [x Hx]; eauto. Qed.

(** ** Nodes *)

Lemma wf_Node_init : wf_node Node_init.
Proof. split; reflexivity. Qed.

Lemma update_action_inr (n : Node) (a : Z) (v alpha : float) :
  wf_node n → 0 ≤ a < 4 →
  ∃ c q,
    action_count n !! Z.to_nat a = Some c ∧
    action_quality n !! Z.to_nat a = Some q ∧
    update_action n a v alpha =
      Ok (mkNode (<[Z.to_nat a := (q + (v - q) * alpha)%float]> (action_quality n))
                 (<[Z.to_nat a := c + 1]> (action_count n))).
Proof.
  intros [Hq Hc] Ha.
  destruct (lookup_is_Some_lt (action_count n) (Z.to_nat a)) as [c Hc']; [lia|].
  destruct (lookup_is_Some_lt (action_quality n) (Z.to_nat a)) as [q Hq']; [lia|].
  exists c, q. split; [done|]. split; [done|].
  unfold update_action.
  rewrite (getitem_inr _ _ c) by (done || lia). simpl.
  rewrite setitem_inr by (unfold len; lia). simpl.
  rewrite (getitem_inr _ _ q) by (done || lia). simpl.
  rewrite setitem_inr by (unfold len; lia). reflexivity.
Qed.

Lemma update_action_wf (n n' : Node) (a : Z) (v alpha : float) :
  wf_node n → update_action n a v alpha = Ok n' → wf_node n'.
Proof.
  intros [Hq Hc]. unfold update_action, setitem.
  intros (c & _ & (cnt & (k1 & _ & [= <-])%bind_Ok &
          (q & _ & (qual & (k2 & _ & [= <-])%bind_Ok & [= <-])%bind_Ok)%bind_Ok)%bind_Ok)%bind_Ok.
  split; simpl; by rewrite length_insert.
Qed.

(** ** The table *)

Lemma wf_node_of (k : Knowledge) (st : state) :
  wf_knowledge k → wf_node (node_of k st).
Proof.
  intros Hk. unfold node_of.
  destruct (nodes k !! st) as [n|] eqn:E; simpl; [by eapply Hk|apply wf_Node_init].
Qed.

(** [add] is an update of the slot's node, a fresh node when the state is new. *)
Lemma add_as_update (k : Knowledge) (st : state) (a : Z) (v alpha : float) :
  add k st a v alpha =
    (nd' ← update_action (node_of k st) a v alpha;
     Ok (mkKnowledge (<[st := nd']> (nodes k)))).
Proof.
  unfold add, node_of, dict_getitem.
  destruct (decide (is_Some (nodes k !! st))) as [[n E]|Hn].
  - rewrite E. reflexivity.
  - assert (nodes k !! st = None) as E
      by (destruct (nodes k !! st); [exfalso; eauto|done]).
    rewrite E, lookup_insert_eq. simpl.
    destruct (update_action Node_init a v alpha); simpl; [|done].
    by rewrite insert_insert_eq.
Qed.

Lemma add_wf (k k' : Knowledge) (st : state) (a : Z) (v alpha : float) :
  wf_knowledge k → add k st a v alpha = Ok k' → wf_knowledge k'.
Proof.
  intros Hk. rewrite add_as_update.
  intros (nd' & Hu & [= <-])%bind_Ok st' n. simpl.
  destruct (decide (st = st')) as [<-|Hne].
  - rewrite lookup_insert_eq. intros [= <-].
    eapply update_action_wf; [|exact Hu]. by apply wf_node_of.
  - rewrite lookup_insert_ne by done. apply Hk.
Qed.

Lemma add_node_of_ne (k k' : Knowledge) (st st' : state) (a : Z) (v alpha : float) :
  add k st a v alpha = Ok k' → st ≠ st' → nodes k' !! st' = nodes k !! st'.
Proof.
  rewrite add_as_update. intros (nd' & _ & [= <-])%bind_Ok Hne. simpl.
  by rewrite lookup_insert_ne.
Qed.

Lemma add_inr (k : Knowledge) (st : state) (a : Z) (v alpha : float) :
  wf_knowledge k → 0 ≤ a < 4 →
  ∃ c q k',
    count_of k st a = Ok c ∧ quality_of k st a = Ok q ∧
    add k st a v alpha = Ok k' ∧
    node_of k' st =
      mkNode (<[Z.to_nat a := (q + (v - q) * alpha)%float]> (action_quality (node_of k st)))
             (<[Z.to_nat a := c + 1]> (action_count (node_of k st))).
Proof.
  intros Hk Ha.
  destruct (update_action_inr (node_of k st) a v alpha) as (c & q & Hc & Hq & Hu);
    [by apply wf_node_of|done|].
  exists c, q. eexists. unfold count_of, quality_of.
  rewrite (getitem_inr _ _ c), (getitem_inr _ _ q) by (done || lia).
  rewrite add_as_update, Hu. simpl.
  split; [done|]. split; [done|]. split; [reflexivity|].
  unfold node_of. simpl. by rewrite lookup_insert_eq.
Qed.

(** One [add] moves the targeted counter up by one and the targeted quality
    by the update rule, and leaves every other slot of the table alone. *)
Lemma add_slots (k : Knowledge) (st : state) (a : Z) (v alpha : float) :
  wf_knowledge k → 0 ≤ a < 4 →
  ∃ c q k',
    count_of k st a = Ok c ∧ quality_of k st a = Ok q ∧
    add k st a v alpha = Ok k' ∧
    count_of k' st a = Ok (c + 1) ∧
    quality_of k' st a = Ok (q + (v - q) * alpha)%float ∧
    ∀ st' b, 0 ≤ b < 4 → (st', b) ≠ (st, a) →
      count_of k' st' b = count_of k st' b ∧
      quality_of k' st' b = quality_of k st' b.
Proof.
  intros Hk Ha.
  destruct (add_inr k st a v alpha Hk Ha) as (c & q & k' & Hc & Hq & Hadd & Hn).
  pose proof (wf_node_of k st Hk) as [Hlq Hlc].
  exists c, q, k'. repeat split; try done.
  - unfold count_of. rewrite Hn. simpl.
    apply getitem_inr; [lia|]. apply list_lookup_insert_eq. lia.
  - unfold quality_of. rewrite Hn. simpl.
    apply getitem_inr; [lia|]. apply list_lookup_insert_eq. lia.
  - destruct (decide (st = st')) as [<-|Hne].
    + assert (Z.to_nat a ≠ Z.to_nat b) by (intros ?; apply H0; f_equal; lia).
      unfold count_of. rewrite Hn. simpl. unfold getitem.
      rewrite length_insert. destruct (norm_index _ b) as [j|] eqn:E; [|done].
      simpl. rewrite norm_index_inr in E by lia. injection E as <-.
      by rewrite list_lookup_insert_ne.
    + unfold count_of, node_of. by rewrite (add_node_of_ne _ _ _ _ _ _ _ Hadd Hne).
  - destruct (decide (st = st')) as [<-|Hne].
    + assert (Z.to_nat a ≠ Z.to_nat b) by (intros ?; apply H0; f_equal; lia).
      unfold quality_of. rewrite Hn. simpl. unfold getitem.
      rewrite length_insert. destruct (norm_index _ b) as [j|] eqn:E; [|done].
      simpl. rewrite norm_index_inr in E by lia. injection E as <-.
      by rewrite list_lookup_insert_ne.
    + unfold quality_of, node_of. by rewrite (add_node_of_ne _ _ _ _ _ _ _ Hadd Hne).
Qed.

(** ** Visit counts and the update rule *)


Lemma targets_nonneg (st : state) (a : Z) (l : list (state * Z * float)) :
  0 ≤ targets st a l.
Proof. unfold targets, len. lia. Qed.

Lemma targets_cons (st : state) (a : Z) (x : state * Z * float)
    (l : list (state * Z * float)) :
  targets st a (x :: l) =
    (if decide (fst x = (st, a)) then 1 else 0) + targets st a l.
Proof.
  unfold targets, len. rewrite filter_cons.
  destruct (decide (fst x = (st, a))); simpl; lia.
Qed.

(** A sequence of updates moves each counter up by the number of updates
    that target it. *)
Lemma add_all_counts (l : list (state * Z * float)) (alpha : float)
    (k : Knowledge) (st : state) (a : Z) (c : Z) :
  wf_knowledge k → valid_actions l → 0 ≤ a < 4 →
  count_of k st a = Ok c →
  ∃ k', add_all k l alpha = Ok k' ∧ wf_knowledge k' ∧
        count_of k' st a = Ok (c + targets st a l).
Proof.
  revert k c. induction l as [|[[st0 a0] v] l IH]; intros k c Hk Hl Ha Hc.
  - exists k. simpl. unfold targets, len. simpl. by rewrite Z.add_0_r.
  - apply Forall_cons in Hl as [Ha0 Hl]. simpl in Ha0.
    destruct (add_slots k st0 a0 v alpha Hk Ha0)
      as (c0 & q0 & k1 & Hc0 & _ & Hadd & Hc1 & _ & Hother).
    pose proof (add_wf _ _ _ _ _ _ Hk Hadd) as Hk1.
    simpl. rewrite Hadd. simpl. rewrite targets_cons. simpl.
    destruct (decide ((st0, a0) = (st, a))) as [[= -> ->]|Hne].
    + rewrite Hc in Hc0. injection Hc0 as <-.
      destruct (IH k1 (c + 1) Hk1 Hl Ha Hc1) as (k' & Hk' & Hwf & Hcnt).
      exists k'. split; [done|]. split; [done|]. rewrite Hcnt. f_equal. lia.
    + destruct (Hother st a Ha) as [Hsame _]; [congruence|].
      rewrite <- Hsame in Hc.
      destruct (IH k1 c Hk1 Hl Ha Hc) as (k' & Hk' & Hwf & Hcnt).
      exists k'. split; [done|]. split; [done|]. rewrite Hcnt. f_equal.
Qed.

(** A table built by [add] from the empty table is well formed. *)
Lemma wf_Knowledge_init : wf_knowledge Knowledge_init.
Proof. intros st n. unfold Knowledge_init. simpl. by rewrite lookup_empty. Qed.

Lemma add_all_wf (l : list (state * Z * float)) (alpha : float) (k k' : Knowledge) :
  wf_knowledge k → add_all k l alpha = Ok k' → wf_knowledge k'.
Proof.
  revert k. induction l as [|[[st a] v] l IH]; simpl; intros k Hk.
  - by intros [= <-].
  - intros (k1 & Hadd & Hrest)%bind_Ok. eapply IH; [|done]. by eapply add_wf.
Qed.

(** C2 (as the code has it): one [update_action] on slot [a] of a node adds
    exactly one to [action_count[a]] and replaces [action_quality[a]] by
    [q + (v - q) * alpha], touching nothing else; one [add] does the same to
    the slot of its state and action, and to no other slot of the table; over
    any sequence of updates a counter grows by the number of updates that
    target it, so it never decreases.  With [alpha = 1.0] the new quality is
    the float [q + (v - q)]: this is [v] when the old quality is [0.0], as in
    a fresh node, and [v] is not [-0.0]; for another old quality it need not
    be [v]. *)
Theorem update_increments_count_and_moves_quality
    (n : Node) (k : Knowledge) (st : state) (a : Z) (v alpha : float)
    (l : list (state * Z * float)) :
  wf_node n → wf_knowledge k → 0 ≤ a < 4 → valid_actions l →
  (∃ c q,
     action_count n !! Z.to_nat a = Some c ∧
     action_quality n !! Z.to_nat a = Some q ∧
     update_action n a v alpha =
       Ok (mkNode (<[Z.to_nat a := (q + (v - q) * alpha)%float]> (action_quality n))
                  (<[Z.to_nat a := c + 1]> (action_count n)))) ∧
  ∃ c q k' k'',
    count_of k st a = Ok c ∧ quality_of k st a = Ok q ∧
    add k st a v alpha = Ok k' ∧
    count_of k' st a = Ok (c + 1) ∧
    quality_of k' st a = Ok (q + (v - q) * alpha)%float ∧
    (∀ st' b, 0 ≤ b < 4 → (st', b) ≠ (st, a) →
       count_of k' st' b = count_of k st' b ∧
       quality_of k' st' b = quality_of k st' b) ∧
    add_all k l alpha = Ok k'' ∧
    count_of k'' st a = Ok (c + targets st a l) ∧
    c ≤ c + targets st a l ∧
    (alpha = 1%float → quality_of k' st a = Ok (q + (v - q))%float) ∧
    (alpha = 1%float → q = 0%float → v ≠ (-0)%float → quality_of k' st a = Ok v).
Proof.
  intros Hn Hk Ha Hl. split; [by apply update_action_inr|].
  destruct (add_slots k st a v alpha Hk Ha)
    as (c & q & k' & Hc & Hq & Hadd & Hc' & Hq' & Hother).
  destruct (add_all_counts l alpha k st a c Hk Hl Ha Hc) as (k'' & Hall & _ & Hcnt).
  exists c, q, k', k''. split_and!; try done.
  - pose proof (targets_nonneg st a l). lia.
  - intros ->. by rewrite Hq', float_mul_1_r.
  - intros -> -> Hv. by rewrite Hq', float_mul_1_r, float_sub_0_r, float_add_0_l.
Qed.

Lemma update_increments_count_and_moves_quality_witness :
  (∃ c q,
     action_count Node_init !! Z.to_nat 2 = Some c ∧
     action_quality Node_init !! Z.to_nat 2 = Some q ∧
     update_action Node_init 2 4 1 =
       Ok (mkNode (<[Z.to_nat 2 := (q + (4 - q) * 1)%float]>
                     (action_quality Node_init))
                  (<[Z.to_nat 2 := c + 1]> (action_count Node_init)))) ∧
  ∃ c q k' k'',
    count_of Knowledge_init board_a 2 = Ok c ∧
    quality_of Knowledge_init board_a 2 = Ok q ∧
    add Knowledge_init board_a 2 4 1 = Ok k' ∧
    count_of k' board_a 2 = Ok (c + 1) ∧
    quality_of k' board_a 2 = Ok (q + (4 - q) * 1)%float ∧
    (∀ st' b, 0 ≤ b < 4 → (st', b) ≠ (board_a, 2) →
       count_of k' st' b = count_of Knowledge_init st' b ∧
       quality_of k' st' b = quality_of Knowledge_init st' b) ∧
    add_all Knowledge_init three_states 1 = Ok k'' ∧
    count_of k'' board_a 2 = Ok (c + targets board_a 2 three_states) ∧
    c ≤ c + targets board_a 2 three_states ∧
    (1%float = 1%float → quality_of k' board_a 2 = Ok (q + (4 - q))%float) ∧
    (1%float = 1%float → q = 0%float → 4%float ≠ (-0)%float →
     quality_of k' board_a 2 = Ok 4%float).
Proof.
  apply (update_increments_count_and_moves_quality Node_init Knowledge_init
           board_a 2 4 1 three_states).
  - apply wf_Node_init.
  - apply wf_Knowledge_init.
  - lia.
  - unfold valid_actions, three_states.
    repeat (apply Forall_cons_2; [simpl; lia|]). apply Forall_nil_2.
Defined.

(** C2, "exactly [v]" fails in floating point: from quality [1.0], an update
    with observed return [0.1] and [alpha = 1.0] leaves
    [0.09999999999999998], which is not [0.1]. *)
Lemma update_alpha_one_not_exact :
  ∃ k k',
    add Knowledge_init board_a 0 1 1 = Ok k ∧
    quality_of k board_a 0 = Ok 1%float ∧
    add k board_a 0 0x1.999999999999ap-4 1 = Ok k' ∧
    quality_of k' board_a 0 = Ok 0x1.9999999999998p-4%float ∧
    (0x1.9999999999998p-4 =? 0x1.999999999999ap-4)%float = false.
Proof. do 2 eexists. repeat split; vm_compute; reflexivity. Qed.

(** ** Estimates of unknown and known states *)

Lemma get_estimate_unknown (k : Knowledge) (st : state) (a : Z) :
  nodes k !! st = None → get_estimate k st a = Ok 0%float.
Proof.
  intros E. unfold get_estimate, get_node_for_state, dict_getitem.
  by rewrite E.
Qed.

Lemma get_estimate_known (k : Knowledge) (st : state) (n : Node) (a : Z) :
  nodes k !! st = Some n →
  get_estimate k st a = try_except (Node_get_estimate n a) AttributeError (Ok 0%float).
Proof.
  intros E. unfold get_estimate, get_node_for_state, dict_getitem.
  by rewrite E.
Qed.

Lemma add_all_untouched (l : list (state * Z * float)) (alpha : float)
    (k k' : Knowledge) (st : state) :
  add_all k l alpha = Ok k' → st ∉ map (λ x, fst (fst x)) l →
  nodes k' !! st = nodes k !! st.
Proof.
  revert k. induction l as [|[[st0 a0] v] l IH]; simpl; intros k.
  - by intros [= <-].
  - intros (k1 & Hadd & Hrest)%bind_Ok Hnot.
    apply not_elem_of_cons in Hnot as [Hne Hnot].
    rewrite (IH _ Hrest Hnot). by eapply add_node_of_ne.
Qed.

Lemma Node_init_estimate (a : Z) :
  0 ≤ a < 4 → Node_get_estimate Node_init a = Ok 0%float.
Proof.
  intros Ha. unfold Node_get_estimate. apply getitem_inr; [lia|].
  assert (a = 0 ∨ a = 1 ∨ a = 2 ∨ a = 3) as [->|[->|[->| ->]]] by lia; reflexivity.
Qed.

(** C4: a state that no update of the table has targeted has the estimate
    [0.0] for each of the four actions, which is what a node just built by
    [Node()] reports for that action: its four qualities are [0.0]. *)
Theorem get_estimate_never_added
    (l : list (state * Z * float)) (alpha : float) (k : Knowledge)
    (st : state) (a : Z) :
  add_all Knowledge_init l alpha = Ok k →
  st ∉ map (λ x, fst (fst x)) l →
  0 ≤ a < 4 →
  get_estimate k st a = Ok 0%float ∧
  Node_get_estimate Node_init a = Ok 0%float ∧
  action_quality Node_init = [0; 0; 0; 0]%float.
Proof.
  intros Hall Hnot Ha.
  pose proof (add_all_untouched _ _ _ _ _ Hall Hnot) as E.
  unfold Knowledge_init in E. simpl in E. rewrite lookup_empty in E.
  split; [by apply get_estimate_unknown|].
  split; [by apply Node_init_estimate|done].
Qed.

Lemma get_estimate_never_added_witness :
  ∃ k, add_all Knowledge_init [(board_a, 2, 4%float); (board_a, 0, 8%float)] 0x1p-1
         = Ok k ∧
       get_estimate k board_b 3 = Ok 0%float ∧
       Node_get_estimate Node_init 3 = Ok 0%float ∧
       action_quality Node_init = [0; 0; 0; 0]%float.
Proof.
  eexists. split; [vm_compute; reflexivity|].
  apply (get_estimate_never_added
           [(board_a, 2, 4%float); (board_a, 0, 8%float)] 0x1p-1 _ board_b 3).
  - vm_compute. reflexivity.
  - intros Hin. vm_compute in Hin.
    repeat (apply elem_of_cons in Hin as [Hin|Hin]; [discriminate|]).
    by apply elem_of_nil in Hin.
  - lia.
Defined.

(** C10 (as the code has it): the [0.0] fallback applies exactly to unknown
    states.  For a known state the subscript decides: an action in [0..3]
    reads its slot, an action of 4 or more raises [IndexError], an action in
    [-4..-1] reads the slot counted from the end, and an action below [-4]
    raises [IndexError] as well. *)
Theorem get_estimate_out_of_range (k : Knowledge) (st : state) (a : Z) :
  wf_knowledge k →
  match nodes k !! st with
  | None => get_estimate k st a = Ok 0%float
  | Some n =>
      (0 ≤ a < 4 →
       ∃ q, action_quality n !! Z.to_nat a = Some q ∧ get_estimate k st a = Ok q) ∧
      (4 ≤ a → get_estimate k st a = Raise IndexError) ∧
      (-4 ≤ a < 0 →
       ∃ q, action_quality n !! Z.to_nat (a + 4) = Some q ∧
            get_estimate k st a = Ok q) ∧
      (a < -4 → get_estimate k st a = Raise IndexError)
  end.
Proof.
  intros Hk. destruct (nodes k !! st) as [n|] eqn:E.
  - destruct (Hk _ _ E) as [Hq _].
    rewrite (get_estimate_known _ _ _ _ E). unfold Node_get_estimate.
    split_and!; intros Ha.
    + destruct (lookup_is_Some_lt (action_quality n) (Z.to_nat a)) as [q Eq]; [lia|].
      exists q. split; [done|]. by rewrite (getitem_inr _ _ q) by (done || lia).
    + rewrite getitem_out by (unfold len; lia). reflexivity.
    + destruct (lookup_is_Some_lt (action_quality n) (Z.to_nat (a + 4))) as [q Eq];
        [lia|].
      exists q. split; [done|].
      rewrite (getitem_wrap _ _ q); unfold len; rewrite ?Hq; (done || lia).
    + rewrite getitem_out by (unfold len; lia). reflexivity.
  - by apply get_estimate_unknown.
Qed.

Lemma get_estimate_out_of_range_witness :
  (0 ≤ -1 < 4 →
   ∃ q, action_quality Node_init !! Z.to_nat (-1) = Some q ∧
        get_estimate (mkKnowledge {[board_a := Node_init]}) board_a (-1) = Ok q) ∧
  (4 ≤ -1 →
   get_estimate (mkKnowledge {[board_a := Node_init]}) board_a (-1) = Raise IndexError) ∧
  (-4 ≤ -1 < 0 →
   ∃ q, action_quality Node_init !! Z.to_nat (-1 + 4) = Some q ∧
        get_estimate (mkKnowledge {[board_a := Node_init]}) board_a (-1) = Ok q) ∧
  (-1 < -4 →
   get_estimate (mkKnowledge {[board_a := Node_init]}) board_a (-1) = Raise IndexError).
Proof.
  assert (wf_knowledge (mkKnowledge {[board_a := Node_init]})) as Hwf.
  { intros st n. simpl. intros [_ <-]%lookup_singleton_Some. apply wf_Node_init. }
  pose proof (get_estimate_out_of_range
                (mkKnowledge {[board_a := Node_init]}) board_a (-1) Hwf) as Hcases.
  simpl in Hcases. rewrite lookup_singleton_eq in Hcases. exact Hcases.
Defined.

(** C10, a negative action does not always read a slot: on a known state
    the action [-5] raises [IndexError]. *)
Lemma get_estimate_minus_five_raises :
  ∃ k, add Knowledge_init board_a 1 4 0x1p-1 = Ok k ∧
       is_Some (nodes k !! board_a) ∧
       get_estimate k board_a (-5) = Raise IndexError ∧
       ¬ ∃ q, get_estimate k board_a (-5) = Ok q.
Proof.
  eexists. split; [vm_compute; reflexivity|].
  split; [vm_compute; eauto|].
  split; [vm_compute; reflexivity|].
  intros [q Hq]. vm_compute in Hq. discriminate.
Qed.

(** ** The best action of a node *)

Lemma fold_max_spec (xs : list float) (m : float) :
  let M := fold_left (λ m y, if (m <? y)%float then y else m) xs m in
  (M <? m)%float = false ∧
  (∀ y, y ∈ xs → (M <? y)%float = false) ∧
  (M = m ∨ M ∈ xs) ∧
  (is_nan m = false → is_nan M = false) ∧
  (is_nan m = true → M = m).
Proof.
  revert m. induction xs as [|y xs IH]; intros m; simpl.
  - split_and!; auto using float_ltb_irrefl. intros y Hy. by apply elem_of_nil in Hy.
  - destruct (IH (if (m <? y)%float then y else m)) as (H1 & H2 & H3 & H4 & H5).
    destruct (m <? y)%float eqn:E.
    + split_and!.
      * destruct (fold_left _ xs y <? m)%float eqn:E2; [|done].
        by rewrite (float_ltb_trans _ _ _ E2 E) in H1.
      * intros z [->|Hz]%elem_of_cons; auto.
      * destruct H3 as [->|H3]; right; [left|by right].
      * intros _. apply H4. by eapply float_ltb_not_nan.
      * intros Hm. by rewrite (float_nan_ltb _ y Hm) in E.
    + split_and!; try done.
      * intros z [->|Hz]%elem_of_cons; auto.
        destruct (is_nan m) eqn:Hm.
        -- by rewrite (H5 eq_refl).
        -- by eapply float_ltb_neg_trans.
      * destruct H3 as [->|H3]; [by left|right; by right].
Qed.

Lemma joint_fold (M : float) (l : list (Z * float)) (acc : list Z) :
  fold_left
    (λ joint '(i, quality),
       if (quality =? M)%float then joint ++ [i] else joint) l acc
  = acc ++ (fst <$> filter (λ p, (snd p =? M)%float = true) l).
Proof.
  revert acc. induction l as [|[i q] l IH]; intros acc; simpl.
  - by rewrite app_nil_r.
  - rewrite IH, filter_cons. simpl. destruct (q =? M)%float.
    + rewrite decide_True by done. by rewrite <- app_assoc.
    + rewrite decide_False by done. done.
Qed.

Lemma fst_enumerate {A} (l : list A) :
  fst <$> enumerate l = Z.of_nat <$> seq 0 (length l).
Proof. unfold enumerate. rewrite fmap_imap. apply (imap_seq_0 l Z.of_nat). Qed.

Lemma NoDup_fst_filter {A B} (P : A * B → Prop) `{∀ x, Decision (P x)}
    (l : list (A * B)) :
  NoDup (fst <$> l) → NoDup (fst <$> filter P l).
Proof.
  induction l as [|x l IH]; [done|].
  rewrite fmap_cons, NoDup_cons. intros [Hx Hl]. rewrite filter_cons.
  destruct (decide (P x)); [|by apply IH].
  rewrite fmap_cons, NoDup_cons. split; [|by apply IH].
  intros (y & Hy & [_ Hin]%list_elem_of_filter)%list_elem_of_fmap.
  apply Hx. apply list_elem_of_fmap. eauto.
Qed.

Lemma elem_of_enumerate {A} (l : list A) (a : Z) (x : A) :
  (a, x) ∈ enumerate l ↔ 0 ≤ a ∧ l !! Z.to_nat a = Some x.
Proof.
  unfold enumerate. rewrite elem_of_lookup_imap. split.
  - intros (i & y & [= -> ->] & Hi). by rewrite Nat2Z.id; split; [lia|].
  - intros [Ha Hx]. exists (Z.to_nat a), x. split; [f_equal; lia|done].
Qed.

(** What [best_action] collects: the slots that compare equal to the
    maximum, each once, in increasing order of the action. *)
Lemma joint_best_actions_spec (n : Node) (q0 : float) (qs : list float) :
  action_quality n = q0 :: qs →
  ∃ M joint,
    py_max (action_quality n) = Ok M ∧
    joint_best_actions n = Ok joint ∧
    NoDup joint ∧
    (∀ a, a ∈ joint ↔
          ∃ q, 0 ≤ a ∧ action_quality n !! Z.to_nat a = Some q ∧
               (q =? M)%float = true) ∧
    (∀ b qb, action_quality n !! b = Some qb → (M <? qb)%float = false) ∧
    M ∈ action_quality n ∧
    (is_nan q0 = false → is_nan M = false) ∧
    (is_nan q0 = true → joint = []).
Proof.
  intros E. unfold joint_best_actions.
  destruct (fold_max_spec qs q0) as (H1 & H2 & H3 & H4 & H5).
  set (M := fold_left _ qs q0) in *.
  assert (py_max (action_quality n) = Ok M) as -> by (by rewrite E).
  exists M. eexists. split; [done|]. split; [done|].
  rewrite joint_fold. simpl.
  split_and!.
  - apply NoDup_fst_filter. rewrite fst_enumerate.
    apply NoDup_fmap_2; [apply Nat2Z.inj'|apply NoDup_seq].
  - intros a. rewrite list_elem_of_fmap. split.
    + intros ([a' q] & -> & [Hq Hin]%list_elem_of_filter). simpl in *.
      apply elem_of_enumerate in Hin as [Ha Hl]. eauto.
    + intros (q & Ha & Hl & Hq). exists (a, q). split; [done|].
      apply list_elem_of_filter. split; [done|]. by apply elem_of_enumerate.
  - intros b qb. rewrite E. destruct b as [|b]; simpl.
    + by intros [= <-].
    + intros Hb. apply H2. by eapply list_elem_of_lookup_2.
  - rewrite E. destruct H3 as [->|H3]; [left|by right].
  - done.
  - intros Hn. rewrite (H5 Hn) in *.
    assert (∀ l : list (Z * float),
              filter (λ p, (snd p =? q0)%float = true) l = []) as ->; [|done].
    induction l as [|[i q] l IH]; [done|]. rewrite filter_cons, IH. simpl.
    rewrite decide_False; [done|].
    assert ((q =? q0)%float = false) as ->; [|done].
    rewrite FloatAxioms.eqb_spec, (is_nan_true_Prim2SF q0 Hn).
    unfold SFeqb. by destruct (Prim2SF q) as [[]|[]| |[] ? ?].
Qed.

Lemma filter_eq_absent (l : list Z) (a : Z) : a ∉ l → filter (λ x, x = a) l = [].
Proof.
  induction l as [|x l IH]; [done|].
  intros [Hx Hl]%not_elem_of_cons. rewrite filter_cons, decide_False by done. auto.
Qed.

Lemma choice_prob_NoDup (l : list Z) (a : Z) :
  NoDup l → a ∈ l → choice_prob l a = Qmake 1 (Pos.of_nat (length l)).
Proof.
  intros Hl Ha. unfold choice_prob, len. f_equal.
  induction Hl as [|x l Hx Hl IH]; [by apply elem_of_nil in Ha|].
  rewrite filter_cons. destruct (decide (x = a)) as [->|Hne].
  - by rewrite filter_eq_absent.
  - apply IH. by apply elem_of_cons in Ha as [->|Ha].
Qed.

Lemma best_action_draw {World} `{Runtime World} (n : Node) (joint : list Z)
    (w w' : World) (j : nat) :
  joint_best_actions n = Ok joint → random_below (length joint) w = (j, w') →
  best_action n w =
    match joint !! j with Some a => Ok (a, w') | None => Raise IndexError end.
Proof.
  intros Hj Hr. unfold best_action, random_choice. rewrite Hj. simpl.
  by rewrite Hr.
Qed.

(** With a NaN in slot 0 nothing compares equal to the maximum, and the
    random choice from the empty candidate list raises [IndexError]. *)
Lemma best_action_nan_head {World} `{Runtime World} (n : Node) (q0 : float)
    (qs : list float) (w : World) :
  action_quality n = q0 :: qs → is_nan q0 = true →
  joint_best_actions n = Ok [] ∧ best_action n w = Raise IndexError.
Proof.
  intros E Hn.
  destruct (joint_best_actions_spec n q0 qs E)
    as (M & joint & _ & Hj & _ & _ & _ & _ & _ & Hnil).
  rewrite (Hnil Hn) in Hj. split; [done|].
  destruct (random_below (length (@nil Z)) w) as [j w'] eqn:Hr.
  by rewrite (best_action_draw n [] w w' j Hj Hr).
Qed.

(** C5 (as the code has it): for a node whose slot 0 is not a NaN,
    [best_action] draws from a non-empty candidate list that holds each
    action once; the quality of every candidate is maximal (no slot of the
    node is greater), every slot that ties with a candidate is a candidate
    too, every draw returns a candidate, and under a uniform draw each
    candidate has probability one over the number of candidates.  With four
    equal qualities the candidates are the four actions, each with
    probability 1/4. *)
Theorem best_action_maximal_and_uniform {World} `{Runtime World}
    (n : Node) (q0 : float) (qs : list float) :
  action_quality n = q0 :: qs → is_nan q0 = false →
  ∃ joint,
    joint_best_actions n = Ok joint ∧ joint ≠ [] ∧ NoDup joint ∧
    (∀ a, a ∈ joint →
       ∃ q, 0 ≤ a < len (action_quality n) ∧
            action_quality n !! Z.to_nat a = Some q ∧
            ∀ b qb, action_quality n !! b = Some qb → (q <? qb)%float = false) ∧
    (∀ a q b qb, a ∈ joint → action_quality n !! Z.to_nat a = Some q →
       0 ≤ b → action_quality n !! Z.to_nat b = Some qb →
       (qb =? q)%float = true → b ∈ joint) ∧
    (∀ (w : World) j w', random_below (length joint) w = (j, w') →
       (j < length joint)%nat →
       ∃ a, joint !! j = Some a ∧ best_action n w = Ok (a, w')) ∧
    (∀ (w : World) a w', best_action n w = Ok (a, w') → a ∈ joint) ∧
    (∀ a, a ∈ joint → choice_prob joint a = Qmake 1 (Pos.of_nat (length joint))) ∧
    (qs = [q0; q0; q0] →
       joint = [0; 1; 2; 3] ∧ ∀ a, 0 ≤ a < 4 → choice_prob joint a = Qmake 1 4).
Proof.
  intros E Hq0.
  destruct (joint_best_actions_spec n q0 qs E)
    as (M & joint & HM & Hj & Hnd & Hmem & Hmax & HMin & HnanM & _).
  specialize (HnanM Hq0).
  assert (∀ a q, a ∈ joint → action_quality n !! Z.to_nat a = Some q →
                 (q =? M)%float = true) as Heq.
  { intros a q (q' & _ & Hl & Hq)%Hmem Hl'. congruence. }
  exists joint. split_and!; try done.
  - apply list_elem_of_lookup_1 in HMin as [i Hi].
    assert (Z.of_nat i ∈ joint) as Hin; [|by intros ->; apply elem_of_nil in Hin].
    apply Hmem. exists M. rewrite Nat2Z.id.
    split_and!; [lia|done|by apply float_eqb_refl].
  - intros a (q & Ha & Hl & Hq)%Hmem. exists q. split_and!; try done.
    + apply lookup_lt_Some in Hl. unfold len. lia.
    + intros b qb Hb. destruct (q <? qb)%float eqn:Hlt; [|done].
      rewrite float_eqb_sym in Hq.
      by rewrite <- (Hmax b qb Hb), (float_eqb_ltb _ _ _ Hq Hlt).
  - intros a q b qb Ha Hl Hb Hlb Hqb. apply Hmem. exists qb.
    split_and!; try done. eapply float_eqb_trans; [done|]. by eapply Heq.
  - intros w j w' Hr Hlt.
    destruct (lookup_is_Some_lt joint j Hlt) as [a Ha]. exists a. split; [done|].
    by rewrite (best_action_draw n joint w w' j Hj Hr), Ha.
  - intros w a w'. destruct (random_below (length joint) w) as [j w1] eqn:Hr.
    rewrite (best_action_draw n joint w w1 j Hj Hr).
    destruct (joint !! j) as [a'|] eqn:Ha; [|done].
    intros [= <- <-]. by eapply list_elem_of_lookup_2.
  - intros a Ha. by apply choice_prob_NoDup.
  - intros ->.
    assert (joint = [0; 1; 2; 3]) as ->.
    { unfold joint_best_actions in Hj. rewrite E in Hj. simpl in Hj.
      rewrite !float_ltb_irrefl in Hj. simpl in Hj.
      rewrite !(float_eqb_refl q0 Hq0) in Hj. simpl in Hj. by injection Hj. }
    split; [done|]. intros a Ha.
    assert (a = 0 ∨ a = 1 ∨ a = 2 ∨ a = 3) as [->|[->|[->| ->]]] by lia;
      reflexivity.
Qed.

Lemma best_action_maximal_and_uniform_witness :
  ∃ joint,
    joint_best_actions Node_init = Ok joint ∧ joint ≠ [] ∧ NoDup joint ∧
    (∀ a, a ∈ joint →
       ∃ q, 0 ≤ a < len (action_quality Node_init) ∧
            action_quality Node_init !! Z.to_nat a = Some q ∧
            ∀ b qb, action_quality Node_init !! b = Some qb →
                    (q <? qb)%float = false) ∧
    (∀ a q b qb, a ∈ joint → action_quality Node_init !! Z.to_nat a = Some q →
       0 ≤ b → action_quality Node_init !! Z.to_nat b = Some qb →
       (qb =? q)%float = true → b ∈ joint) ∧
    (∀ (w : toy_world) j w', random_below (length joint) w = (j, w') →
       (j < length joint)%nat →
       ∃ a, joint !! j = Some a ∧ best_action Node_init w = Ok (a, w')) ∧
    (∀ (w : toy_world) a w', best_action Node_init w = Ok (a, w') → a ∈ joint) ∧
    (∀ a, a ∈ joint → choice_prob joint a = Qmake 1 (Pos.of_nat (length joint))) ∧
    ([0%float; 0%float; 0%float] = [0%float; 0%float; 0%float] →
       joint = [0; 1; 2; 3] ∧ ∀ a, 0 ≤ a < 4 → choice_prob joint a = Qmake 1 4).
Proof.
  apply (best_action_maximal_and_uniform (World := toy_world) Node_init
           0%float [0%float; 0%float; 0%float]); reflexivity.
Defined.

(** C5, not for every node: on a node with a NaN in slot 0, which an update
    with a NaN step size leaves behind, no slot compares equal to the
    maximum, and [best_action] returns no action but raises [IndexError]. *)
Lemma best_action_nan_raises :
  ∃ k, add Knowledge_init board_a 0 1 nan = Ok k ∧
       nodes k !! board_a = Some nan_node ∧
       joint_best_actions nan_node = Ok [] ∧
       best_action nan_node (mkToy 0 3 []) = Raise IndexError.
Proof.
  eexists. split; [vm_compute; reflexivity|].
  split; [vm_compute; reflexivity|].
  apply (best_action_nan_head nan_node nan [0%float; 0%float; 0%float]); reflexivity.
Qed.

(** ** The choice between the best known action and a random one *)

Lemma get_node_for_state_lookup (k : Knowledge) (st : state) :
  get_node_for_state k st = Ok (nodes k !! st).
Proof. unfold get_node_for_state, dict_getitem. by destruct (nodes k !! st). Qed.

(** C3: with [r] the value drawn by [random.uniform(0, 1)], the step takes
    [best_action] of the state's node exactly when [r > epsilon] and the
    state has a node; in every other case, in particular whenever
    [r <= epsilon] and whenever the state has no node, whatever the epsilon,
    it takes [env.action_space.sample()].  For numbers, not [r > epsilon] is
    [r <= epsilon]. *)
Theorem choose_action_exploits_iff {World} `{Runtime World}
    (epsilon : float) (knowledge : Knowledge) (obs : list Z) (used : Z)
    (w w1 : World) (r : float) :
  random_uniform w = (r, w1) →
  (∀ nd, (epsilon <? r)%float = true → nodes knowledge !! obs = Some nd →
     choose_action epsilon knowledge obs used w =
       ('(action, w2) ← best_action nd w1; Ok (action, used + 1, w2))) ∧
  ((epsilon <? r)%float = false ∨ nodes knowledge !! obs = None →
     choose_action epsilon knowledge obs used w =
       (let '(action, w2) := action_space_sample w1 in Ok (action, used, w2))) ∧
  ((r <=? epsilon)%float = true →
     choose_action epsilon knowledge obs used w =
       (let '(action, w2) := action_space_sample w1 in Ok (action, used, w2))) ∧
  (∀ action used' w2,
     choose_action epsilon knowledge obs used w = Ok (action, used', w2) →
     (used' = used + 1 ↔
      (epsilon <? r)%float = true ∧ is_Some (nodes knowledge !! obs)) ∧
     (used' = used ↔
      (epsilon <? r)%float = false ∨ nodes knowledge !! obs = None)) ∧
  (is_nan r = false → is_nan epsilon = false →
     ((epsilon <? r)%float = false ↔ (r <=? epsilon)%float = true)).
Proof.
  intros Hr.
  assert (∀ nd, (epsilon <? r)%float = true → nodes knowledge !! obs = Some nd →
     choose_action epsilon knowledge obs used w =
       ('(action, w2) ← best_action nd w1; Ok (action, used + 1, w2))) as Hbest.
  { intros nd Hgt Hnd. unfold choose_action.
    rewrite Hr, Hgt, !get_node_for_state_lookup, Hnd. reflexivity. }
  assert ((epsilon <? r)%float = false ∨ nodes knowledge !! obs = None →
     choose_action epsilon knowledge obs used w =
       (let '(action, w2) := action_space_sample w1 in Ok (action, used, w2)))
    as Hrand.
  { intros Hcase. unfold choose_action. rewrite Hr.
    destruct (epsilon <? r)%float; [|done].
    destruct Hcase as [|Hnd]; [done|].
    rewrite !get_node_for_state_lookup, Hnd. reflexivity. }
  split_and!; try done.
  - intros Hle. apply Hrand. left. by apply float_leb_not_gt.
  - intros action used' w2.
    destruct (epsilon <? r)%float eqn:Hgt, (nodes knowledge !! obs) as [nd|] eqn:Hnd.
    + rewrite (Hbest nd eq_refl eq_refl).
      destruct (best_action nd w1) as [[a w']|]; simpl; [|done].
      intros [= <- <- <-]. split; split.
      * eauto.
      * done.
      * lia.
      * by intros [|].
    + rewrite (Hrand (or_intror eq_refl)).
      destruct (action_space_sample w1) as [a w']. intros [= <- <- <-].
      split; split.
      * lia.
      * by intros [_ [? [=]]].
      * auto.
      * done.
    + rewrite (Hrand (or_introl eq_refl)).
      destruct (action_space_sample w1) as [a w']. intros [= <- <- <-].
      split; split.
      * lia.
      * by intros [[=] _].
      * auto.
      * done.
    + rewrite (Hrand (or_introl eq_refl)).
      destruct (action_space_sample w1) as [a w']. intros [= <- <- <-].
      split; split.
      * lia.
      * by intros [[=] _].
      * auto.
      * done.
  - intros Hnr Hne. split; [by apply float_not_gt_leb|apply float_leb_not_gt].
Qed.

Lemma choose_action_exploits_iff_witness :
  (∀ nd, (0x1p-3 <? 0x1p-1)%float = true →
     nodes Knowledge_init !! board_a = Some nd →
     choose_action 0x1p-3 Knowledge_init board_a 0 (mkToy 0 3 []) =
       ('(action, w2) ← best_action nd (mkToy 0 3 []); Ok (action, 0 + 1, w2))) ∧
  ((0x1p-3 <? 0x1p-1)%float = false ∨ nodes Knowledge_init !! board_a = None →
     choose_action 0x1p-3 Knowledge_init board_a 0 (mkToy 0 3 []) =
       (let '(action, w2) := action_space_sample (mkToy 0 3 []) in Ok (action, 0, w2))) ∧
  ((0x1p-1 <=? 0x1p-3)%float = true →
     choose_action 0x1p-3 Knowledge_init board_a 0 (mkToy 0 3 []) =
       (let '(action, w2) := action_space_sample (mkToy 0 3 []) in Ok (action, 0, w2))) ∧
  (∀ action used' w2,
     choose_action 0x1p-3 Knowledge_init board_a 0 (mkToy 0 3 []) = Ok (action, used', w2) →
     (used' = 0 + 1 ↔
      (0x1p-3 <? 0x1p-1)%float = true ∧ is_Some (nodes Knowledge_init !! board_a)) ∧
     (used' = 0 ↔
      (0x1p-3 <? 0x1p-1)%float = false ∨ nodes Knowledge_init !! board_a = None)) ∧
  (is_nan 0x1p-1 = false → is_nan 0x1p-3 = false →
     ((0x1p-3 <? 0x1p-1)%float = false ↔ (0x1p-1 <=? 0x1p-3)%float = true)).
Proof.
  apply (choose_action_exploits_iff 0x1p-3 Knowledge_init board_a 0
           (mkToy 0 3 []) (mkToy 0 3 []) 0x1p-1).
  reflexivity.
Defined.

(** ** The listing of the most visited states *)

Lemma insert_by_visited_perm (x : state * Node) (l : list (state * Node)) :
  insert_by_visited x l ≡ₚ x :: l.
Proof.
  induction l as [|y l IH]; simpl; [done|].
  destruct (visited (snd x) <? visited (snd y)); [|done].
  rewrite IH. apply Permutation_swap.
Qed.

Lemma sorted_by_visited_perm (l : list (state * Node)) : sorted_by_visited l ≡ₚ l.
Proof.
  induction l as [|x l IH]; simpl; [done|].
  unfold sorted_by_visited in *. simpl. by rewrite insert_by_visited_perm, IH.
Qed.

Lemma descending_cons (x : state * Node) (l : list (state * Node)) :
  descending (x :: l) ↔
  (∀ y, y ∈ l → visited (snd y) ≤ visited (snd x)) ∧ descending l.
Proof.
  split.
  - intros Hd. split.
    + intros y [j Hj]%list_elem_of_lookup_1. apply (Hd 0%nat (S j) x y); [lia|done..].
    + intros i j a b Hij Ha Hb. apply (Hd (S i) (S j) a b); [lia|done..].
  - intros [Hx Hd] [|i] [|j] a b Hij; simpl; try lia.
    + intros [= <-] [= <-]. lia.
    + intros [= <-] Hb. apply Hx. by eapply list_elem_of_lookup_2.
    + by apply Hd; lia.
Qed.

Lemma insert_by_visited_descending (x : state * Node) (l : list (state * Node)) :
  descending l → descending (insert_by_visited x l).
Proof.
  induction l as [|y l IH]; simpl; intros Hd.
  - apply descending_cons. split; [|done]. intros y Hy. by apply elem_of_nil in Hy.
  - apply descending_cons in Hd as [Hy Hd].
    destruct (Z.ltb_spec (visited (snd x)) (visited (snd y))).
    + apply descending_cons. split; [|by apply IH].
      intros z Hz. rewrite insert_by_visited_perm in Hz.
      apply elem_of_cons in Hz as [->|Hz]; [lia|by apply Hy].
    + apply descending_cons. split.
      * intros z [->|Hz]%elem_of_cons; [lia|]. specialize (Hy z Hz). lia.
      * by apply descending_cons.
Qed.

Lemma sorted_by_visited_descending (l : list (state * Node)) :
  descending (sorted_by_visited l).
Proof.
  induction l as [|x l IH]; simpl.
  - intros i j x y _ Hx. by rewrite lookup_nil in Hx.
  - by apply insert_by_visited_descending.
Qed.

(** The loop stops only after it has printed one line more than the limit. *)
Lemma dump_loop_limited (self : Knowledge) (limit : Z)
    (items : list (state * Node)) (count : Z) (out : list (state * Node)) :
  (∀ n nod, (n, nod) ∈ items → nodes self !! n = Some nod) →
  0 < limit → 0 ≤ count ≤ limit →
  dump_loop self limit items count out =
    Ok (out ++ take (Z.to_nat (limit + 1 - count)) items).
Proof.
  revert count out. induction items as [|[n nod] rest IH]; intros count out Hin Hl Hc.
  - simpl. by rewrite take_nil, app_nil_r.
  - simpl. unfold dict_getitem. rewrite (Hin n nod) by left. simpl.
    destruct (Z.eqb_spec limit 0); [lia|]. simpl.
    replace (Z.to_nat (limit + 1 - count)) with (S (Z.to_nat (limit - count))) by lia.
    simpl. destruct (Z.ltb_spec limit (count + 1)).
    + replace (Z.to_nat (limit - count)) with 0%nat by lia. by rewrite take_0.
    + rewrite IH; [|by intros; apply Hin; right|done|lia].
      rewrite <- app_assoc. simpl. do 4 f_equal. lia.
Qed.

Lemma dump_loop_unlimited (self : Knowledge) (items : list (state * Node))
    (count : Z) (out : list (state * Node)) :
  (∀ n nod, (n, nod) ∈ items → nodes self !! n = Some nod) →
  dump_loop self 0 items count out = Ok (out ++ items).
Proof.
  revert count out. induction items as [|[n nod] rest IH]; intros count out Hin.
  - simpl. by rewrite app_nil_r.
  - simpl. unfold dict_getitem. rewrite (Hin n nod) by left. simpl.
    rewrite IH; [|by intros; apply Hin; right]. by rewrite <- app_assoc.
Qed.

(** What [dump] prints: with a positive limit [L], the first [L + 1] states
    in descending order of visits (all of them, when there are fewer). *)
Lemma dump_prints_limit_plus_one (self : Knowledge) (limit : Z) :
  0 < limit →
  ∃ sorted,
    sorted ≡ₚ map_to_list (nodes self) ∧ descending sorted ∧
    dump self limit = Ok (take (Z.to_nat limit + 1)%nat sorted) ∧
    length (take (Z.to_nat limit + 1)%nat sorted) =
      Nat.min (Z.to_nat limit + 1)%nat (Knowledge_size self).
Proof.
  intros Hl. exists (sorted_by_visited (map_to_list (nodes self))).
  split; [apply sorted_by_visited_perm|].
  split; [apply sorted_by_visited_descending|].
  split.
  - unfold dump. rewrite dump_loop_limited; [|..|done|lia].
    + simpl. do 2 f_equal. lia.
    + intros n nod Hin. rewrite sorted_by_visited_perm in Hin.
      by apply elem_of_map_to_list in Hin.
  - rewrite length_take. unfold Knowledge_size.
    by rewrite sorted_by_visited_perm, length_map_to_list.
Qed.

(** C6, on a table of three states: [dump(1)] prints two lines, the most
    visited state and the second most visited one, where a limit of one
    asks for one line. *)
Theorem dump_one_prints_two :
  ∃ k na nb,
    add_all Knowledge_init three_states 0x1p-1 = Ok k ∧
    Knowledge_size k = 3%nat ∧
    dump k 1 = Ok [(board_a, na); (board_b, nb)] ∧
    visited na = 3 ∧ visited nb = 2.
Proof.
  do 3 eexists. split; [vm_compute; reflexivity|].
  split; [vm_compute; reflexivity|].
  split; [vm_compute; reflexivity|].
  split; vm_compute; reflexivity.
Qed.

(** ** The TD(lambda) targets *)

Lemma range_nat (a : nat) (b : Z) :
  range (Z.of_nat a) b = Z.of_nat <$> seq a (Z.to_nat b - a).
Proof.
  unfold range. replace (Z.to_nat (b - Z.of_nat a)) with (Z.to_nat b - a)%nat by lia.
  rewrite <- (Nat.add_0_r a) at 2. rewrite <- fmap_add_seq, <- list_fmap_compose.
  apply list_fmap_ext. intros _ i _. simpl. lia.
Qed.

(** A loop whose body never raises is a fold. *)
Lemma for_each_pure {J S} (l : list J) (f : J → Z) (body : Z → S → result S)
    (step : S → J → S) (Inv : S → Prop) (s : S) :
  Inv s →
  (∀ j s, j ∈ l → Inv s → body (f j) s = Ok (step s j) ∧ Inv (step s j)) →
  for_each (f <$> l) body s = Ok (fold_left step l s) ∧ Inv (fold_left step l s).
Proof.
  revert s. induction l as [|j l IH]; intros s Hs Hbody; simpl; [done|].
  destruct (Hbody j s) as [-> Hs']; [by left|done|]. simpl.
  apply IH; [done|]. intros j' s' Hj'. apply Hbody. by right.
Qed.

(** The example power function obeys the laws of [**]. *)
#[global] Instance py_pow_laws : PowLaws py_pow.
Proof.
  split.
  - intros x. reflexivity.
  - intros x k H0 H1 _. unfold py_pow.
    assert ((1 <? x)%float = false) as ->.
    { destruct (1 <? x)%float eqn:E; [|done].
      pose proof (float_ltb_trans _ _ _ H1 E) as Hxx.
      by rewrite float_ltb_irrefl in Hxx. }
    assert ((x <? -1)%float = false) as ->.
    { destruct (x <? -1)%float eqn:E; [|done].
      assert ((x <? 0)%float = true) as Hx0 by (by apply (float_ltb_trans _ _ _ E)).
      by rewrite (float_leb_not_gt _ _ H0) in Hx0. }
    rewrite andb_false_r. simpl. eauto.
Qed.

(** Under the laws, the powers of a base in [0, 1) are those of [pow_value]. *)
Lemma pow_value_unit_interval (fpow : float → Z → result float) `{!PowLaws fpow}
    (llambda : float) (k : Z) :
  (0 <=? llambda)%float = true → (llambda <? 1)%float = true → 0 ≤ k →
  fpow llambda k = Ok (pow_value fpow llambda k).
Proof.
  intros H0 H1 Hk. unfold pow_value.
  by destruct (pow_unit_interval llambda k H0 H1 Hk) as [p ->].
Qed.

Lemma td_base_map (fpow : float → Z → result float) (llambda p0 : float)
    (history : list (state * Z * float)) :
  (history ≠ [] → fpow llambda 0 = Ok p0) →
  td_base fpow llambda history =
    Ok ((λ h, snd h * ((1 - llambda) * p0))%float <$> history).
Proof.
  intros Hp. unfold td_base.
  assert (∀ acc,
    for_each history
      (λ h td, p ← fpow llambda 0; Ok (td ++ [(snd h * ((1 - llambda) * p))%float]))
      acc =
    Ok (acc ++ ((λ h, snd h * ((1 - llambda) * p0))%float <$> history)))
    as Hgen; [|exact (Hgen [])].
  destruct history as [|h0 history]; [intros acc; simpl; by rewrite app_nil_r|].
  specialize (Hp ltac:(done)).
  generalize (h0 :: history). clear h0 history.
  intros history. rewrite Hp.
  induction history as [|h history IH]; intros acc; simpl.
  - by rewrite app_nil_r.
  - by rewrite IH, <- app_assoc.
Qed.

(** One pass of the inner loop, for the lookahead [k]. *)
Lemma td_pass_pure (g : float → Z → float) (llambda : float)
    (history : list (state * Z * float)) (k : nat) (td : list float) :
  length td = length history →
  for_each (range 0 (len history - Z.of_nat k))
    (λ i td,
       old ← getitem td i;
       h ← getitem history (i + Z.of_nat k);
       setitem td i (old + snd h * ((1 - llambda) * g llambda (Z.of_nat k)))%float)
    td
  = Ok (spec_td_pass g llambda (snd <$> history) td k) ∧
  length (spec_td_pass g llambda (snd <$> history) td k) = length history.
Proof.
  intros Hlen. unfold len, spec_td_pass.
  rewrite (range_nat 0), length_fmap.
  replace (Z.to_nat (Z.of_nat (length history) - Z.of_nat k) - 0)%nat
    with (length history - k)%nat by lia.
  apply (for_each_pure _ Z.of_nat _ _ (λ td, length td = length history)); [done|].
  intros i td' [_ Hi]%elem_of_seq Htd'. simpl in Hi.
  destruct (lookup_is_Some_lt td' i) as [old Hold]; [lia|].
  destruct (lookup_is_Some_lt history (i + k)) as [h Hh]; [lia|].
  rewrite (getitem_inr _ _ old) by (rewrite ?Nat2Z.id; done || lia). simpl.
  rewrite (getitem_inr _ _ h)
    by (replace (Z.to_nat (Z.of_nat i + Z.of_nat k)) with (i + k)%nat by lia;
        done || lia).
  simpl. rewrite setitem_inr by (unfold len; lia).
  rewrite Nat2Z.id, Hold, list_lookup_fmap, Hh. simpl.
  split; [done|]. by rewrite length_insert.
Qed.

(** When the powers in use are computed without error, with the values
    [g lambda k], the two nested loops of the program are the passes of the
    specification for the lookaheads [1 .. min(9, n - 1)], applied to the
    list built by the first loop. *)
Lemma td_lambda_estimate_passes (fpow : float → Z → result float)
    (g : float → Z → float) (llambda : float)
    (history : list (state * Z * float)) :
  (∀ k, 0 ≤ k ≤ Z.min 9 (len history - 1) → fpow llambda k = Ok (g llambda k)) →
  td_lambda_estimate fpow llambda history =
    Ok (fold_left (spec_td_pass g llambda (snd <$> history))
          (seq 1 (Nat.min 9 (length history - 1)))
          ((λ h, snd h * ((1 - llambda) * g llambda 0%Z))%float <$> history)) ∧
  length (fold_left (spec_td_pass g llambda (snd <$> history))
            (seq 1 (Nat.min 9 (length history - 1)))
            ((λ h, snd h * ((1 - llambda) * g llambda 0%Z))%float <$> history))
    = length history.
Proof.
  intros Hpow. unfold td_lambda_estimate.
  rewrite (td_base_map fpow llambda (g llambda 0)).
  2:{ intros Hne. apply Hpow. destruct history; [done|]. unfold len. simpl. lia. }
  cbn [mbind result_bind].
  rewrite (range_nat 1).
  replace (Z.to_nat (Z.min 10 (len history)) - 1)%nat
    with (Nat.min 9 (length history - 1)) by (unfold len; lia).
  apply (for_each_pure _ Z.of_nat _ _ (λ td, length td = length history)).
  - by rewrite length_fmap.
  - intros k td [Hk1 Hk2]%elem_of_seq Htd.
    rewrite Hpow by (unfold len; lia). cbn [mbind result_bind].
    by apply td_pass_pure.
Qed.

(** A loop keeps what each turn of its body keeps. *)
Lemma for_each_inv {J S} (l : list J) (body : J → S → result S) (Inv : S → Prop)
    (s s' : S) :
  (∀ j s s', body j s = Ok s' → Inv s → Inv s') →
  for_each l body s = Ok s' → Inv s → Inv s'.
Proof.
  intros Hbody. revert s. induction l as [|j l IH]; intros s; simpl.
  - by intros [= <-].
  - intros (s1 & H1 & Hrest)%bind_Ok Hs. eapply IH; [done|]. by eapply Hbody.
Qed.

(** The first loop gives one target for each step. *)
Lemma td_base_length (fpow : float → Z → result float) (llambda : float)
    (history : list (state * Z * float)) (td : list float) :
  td_base fpow llambda history = Ok td → length td = length history.
Proof.
  unfold td_base. intros Hbase.
  assert (∀ (hist : list (state * Z * float)) acc td1,
    for_each hist
      (λ h td, p ← fpow llambda 0; Ok (td ++ [(snd h * ((1 - llambda) * p))%float]))
      acc = Ok td1 → length td1 = (length acc + length hist)%nat) as Hgen.
  { induction hist as [|h hist IH]; intros acc td1; simpl.
    - intros [= <-]. lia.
    - intros (td2 & (p & _ & [= <-])%bind_Ok & Hrest)%bind_Ok.
      apply IH in Hrest. rewrite length_app in Hrest. simpl in Hrest. lia. }
  pose proof (Hgen _ _ _ Hbase) as Hb. simpl in Hb. lia.
Qed.

(** A pass of the second loop keeps the number of targets. *)
Lemma td_pass_length (fpow : float → Z → result float) (llambda : float)
    (history : list (state * Z * float)) (td_factor : Z) (td td' : list float) :
  (p ← fpow llambda td_factor;
   for_each (range 0 (len history - td_factor))
     (λ i td,
        old ← getitem td i;
        h ← getitem history (i + td_factor);
        setitem td i (old + snd h * ((1 - llambda) * p))%float)
     td) = Ok td' →
  length td = length history → length td' = length history.
Proof.
  intros (p & _ & Hinner)%bind_Ok. revert Hinner.
  apply (for_each_inv _ _ (λ td, length td = length history)).
  intros i td3 td4 (old & _ & (h & _ & Hset)%bind_Ok)%bind_Ok Hlen.
  unfold setitem in Hset. apply bind_Ok in Hset as (j & _ & [= <-]).
  by rewrite length_insert.
Qed.

(** Whenever the targets are computed, there is one for each step. *)
Lemma td_lambda_estimate_length (fpow : float → Z → result float)
    (llambda : float) (history : list (state * Z * float)) (td : list float) :
  td_lambda_estimate fpow llambda history = Ok td → length td = length history.
Proof.
  unfold td_lambda_estimate. intros (td0 & Hbase & Hloops)%bind_Ok.
  apply td_base_length in Hbase. revert Hloops Hbase.
  apply (for_each_inv _ _ (λ td, length td = length history)).
  intros k td1 td2. apply td_pass_length.
Qed.

(** A loop that raises does so in one turn of its body, after the turns
    before it have returned. *)
Lemma for_each_raise {J S} (l : list J) (body : J → S → result S) (s : S) (e : exn) :
  for_each l body s = Raise e →
  ∃ l1 j l2 s1, l = l1 ++ j :: l2 ∧ for_each l1 body s = Ok s1 ∧
                body j s1 = Raise e.
Proof.
  revert s. induction l as [|j l IH]; intros s; simpl; [done|].
  destruct (body j s) as [s1|e1] eqn:Hj; simpl.
  - intros (l1 & j' & l2 & s2 & -> & Hl1 & Hj')%IH.
    exists (j :: l1), j', l2, s2. simpl. rewrite Hj. done.
  - intros [= ->]. by exists [], j, l, s.
Qed.

Lemma fold_left_ext_in {A B} (f g : A → B → A) (l : list B) (a : A) :
  (∀ a b, b ∈ l → f a b = g a b) → fold_left f l a = fold_left g l a.
Proof.
  revert a. induction l as [|b l IH]; intros a Hfg; simpl; [done|].
  rewrite Hfg by left. apply IH. intros a' b' Hb'. apply Hfg. by right.
Qed.

(** The targets depend on the power function only at the lookaheads used. *)
Lemma spec_td_targets_ext (f g : float → Z → float) (K : nat) (llambda : float)
    (r : list float) :
  (∀ k, (1 ≤ k ≤ Nat.min K (length r - 1))%nat →
        f llambda (Z.of_nat k) = g llambda (Z.of_nat k)) →
  spec_td_targets f K llambda r = spec_td_targets g K llambda r.
Proof.
  intros Hfg. unfold spec_td_targets. apply fold_left_ext_in.
  intros target k [Hk1 Hk2]%elem_of_seq. unfold spec_td_pass.
  rewrite Hfg by lia. done.
Qed.

(** C1 (as the code has it): for [lambda] in [0, 1), where no power
    overflows, the targets computed by the program are those of the
    specification's algorithm with the lookahead running from 1 up to
    [min(9, n - 1)]: the base pass [r[i] * (1 - lambda)], then for each such
    [k] the pass [target[i] += r[i+k] * ((1 - lambda) * lambda^k)] over
    [i] in [0 .. n-1-k].  For up to ten steps this is the algorithm with the
    bound [min(10, n - 1)].  A history of one step gets the base pass only,
    and the rewards [1, 0, 0, 0] with [lambda = 0.5] give the targets
    [0.5, 0, 0, 0]. *)
Theorem td_lambda_estimate_refines_spec (fpow : float → Z → result float)
    `{!PowLaws fpow} (llambda : float) (history : list (state * Z * float)) :
  (0 <=? llambda)%float = true → (llambda <? 1)%float = true →
  td_lambda_estimate fpow llambda history =
    Ok (spec_td_targets (pow_value fpow) 9 llambda (snd <$> history)) ∧
  length (spec_td_targets (pow_value fpow) 9 llambda (snd <$> history))
    = length history ∧
  ((length history ≤ 10)%nat →
   td_lambda_estimate fpow llambda history =
     Ok (spec_td_targets (pow_value fpow) 10 llambda (snd <$> history))) ∧
  (∀ h, history = [h] →
   td_lambda_estimate fpow llambda history = Ok [(snd h * (1 - llambda))%float]) ∧
  (llambda = 0x1p-1%float → snd <$> history = [1; 0; 0; 0]%float →
   fpow 0x1p-1%float 1 = Ok 0x1p-1%float → fpow 0x1p-1%float 2 = Ok 0x1p-2%float →
   fpow 0x1p-1%float 3 = Ok 0x1p-3%float →
   td_lambda_estimate fpow llambda history = Ok [0x1p-1; 0; 0; 0]%float).
Proof.
  intros Hl0 Hl1.
  destruct (td_lambda_estimate_passes fpow (pow_value fpow) llambda history)
    as [Htd Hlen].
  { intros k Hk. apply pow_value_unit_interval; done || lia. }
  assert (pow_value fpow llambda 0 = 1%float) as Hpow0.
  { unfold pow_value. by rewrite pow_zero. }
  assert ((λ h : state * Z * float, snd h * ((1 - llambda) * pow_value fpow llambda 0%Z))%float
            <$> history =
          (λ ri, ri * (1 - llambda))%float <$> (snd <$> history)) as Hbase.
  { rewrite <- list_fmap_compose. apply list_fmap_ext.
    intros _ h _. simpl. by rewrite Hpow0, float_mul_1_r. }
  rewrite Hbase in Htd, Hlen.
  assert (td_lambda_estimate fpow llambda history =
          Ok (spec_td_targets (pow_value fpow) 9 llambda (snd <$> history))) as Hspec.
  { rewrite Htd. unfold spec_td_targets. by rewrite length_fmap. }
  split_and!.
  - done.
  - unfold spec_td_targets. by rewrite length_fmap.
  - intros Hn. rewrite Hspec. unfold spec_td_targets. rewrite length_fmap.
    do 3 f_equal. lia.
  - intros h ->. by rewrite Hspec.
  - intros -> Hr H1 H2 H3. rewrite Hspec, Hr.
    rewrite (spec_td_targets_ext (pow_value fpow) pow_by_mult); [by vm_compute|].
    simpl. intros k Hk. unfold pow_value.
    assert (k = 1 ∨ k = 2 ∨ k = 3)%nat as [->|[->| ->]] by lia.
    + change (Z.of_nat 1) with 1. by rewrite H1.
    + change (Z.of_nat 2) with 2. by rewrite H2.
    + change (Z.of_nat 3) with 3. by rewrite H3.
Qed.

Lemma td_lambda_estimate_refines_spec_witness :
  td_lambda_estimate py_pow 0x1p-1 history_one_reward =
    Ok (spec_td_targets (pow_value py_pow) 9 0x1p-1 (snd <$> history_one_reward)) ∧
  length (spec_td_targets (pow_value py_pow) 9 0x1p-1 (snd <$> history_one_reward)) =
    length history_one_reward ∧
  ((length history_one_reward ≤ 10)%nat →
   td_lambda_estimate py_pow 0x1p-1 history_one_reward =
     Ok (spec_td_targets (pow_value py_pow) 10 0x1p-1 (snd <$> history_one_reward))) ∧
  (∀ h, history_one_reward = [h] →
   td_lambda_estimate py_pow 0x1p-1 history_one_reward =
     Ok [(snd h * (1 - 0x1p-1))%float]) ∧
  (0x1p-1%float = 0x1p-1%float → snd <$> history_one_reward = [1; 0; 0; 0]%float →
   py_pow 0x1p-1%float 1 = Ok 0x1p-1%float →
   py_pow 0x1p-1%float 2 = Ok 0x1p-2%float →
   py_pow 0x1p-1%float 3 = Ok 0x1p-3%float →
   td_lambda_estimate py_pow 0x1p-1 history_one_reward = Ok [0x1p-1; 0; 0; 0]%float).
Proof.
  apply (td_lambda_estimate_refines_spec py_pow 0x1p-1 history_one_reward);
    reflexivity.
Defined.

(** C1, the bound [min(10, n - 1)] fails from eleven steps on: with ten
    rewards [0] followed by a reward [1] and [lambda = 0.5], the lookahead 10
    of the specification's loop adds [2^-11] to [target[0]], and the program,
    whose lookahead stops at 9, leaves [target[0]] at [0.0]. *)
Lemma td_tenth_lookahead_missing :
  ∃ td,
    td_lambda_estimate py_pow 0x1p-1 history_eleven = Ok td ∧
    td !! 0%nat = Some 0%float ∧
    spec_td_targets (pow_value py_pow) 10 0x1p-1 (snd <$> history_eleven) !! 0%nat
      = Some 0x1p-11%float ∧
    (0 =? 0x1p-11)%float = false ∧
    td ≠ spec_td_targets (pow_value py_pow) 10 0x1p-1 (snd <$> history_eleven).
Proof.
  eexists. split; [vm_compute; reflexivity|].
  split; [reflexivity|]. split; [vm_compute; reflexivity|].
  split; [reflexivity|].
  intros Heq.
  apply (f_equal (λ l, match l !! 0%nat with
                       | Some x => (x =? 0)%float
                       | None => false
                       end)) in Heq.
  vm_compute in Heq. discriminate.
Qed.

(** ** One episode *)

#[global] Instance toy_laws : RuntimeLaws toy_world.
Proof.
  split.
  - intros w. simpl. pose proof (Nat.mod_upper_bound (toy_steps w) 4). lia.
  - intros n w Hn. simpl. apply Nat.mod_upper_bound. lia.
Qed.



(** What the step loop leaves behind when it returns. *)
Lemma episode_loop_inv {World} `{Runtime World} (ts : list Z) (epsilon : float)
    (k : Knowledge) (v v' : episode_vars) (w w' : World) (done : bool) :
  episode_loop ts epsilon k v w = Ok (v', done, w') →
  ∃ new,
    history v' = history v ++ new ∧
    if done then
      (1 ≤ length new)%nat ∧ ts !! (length new - 1)%nat = Some (t_var v') ∧
      total_moves v' = total_moves v + (t_var v' + 1)
    else
      length new = length ts ∧ total_moves v' = total_moves v ∧
      last ts = (if ts is [] then None else Some (t_var v')) ∧
      (ts = [] → t_var v' = t_var v).
Proof.
  revert v w. induction ts as [|t ts IH]; intros v w; simpl.
  - intros [= <- <- <-]. exists []. by rewrite app_nil_r.
  - intros ([[a u] w1] & _ & Hrest)%bind_Ok. simpl in Hrest.
    destruct (env_step a w1) as [[[obs reward] d] w2].
    destruct d.
    + injection Hrest as <- <- <-. simpl. eexists [_]. simpl. split; [done|].
      split_and!; [lia|done|done].
    + apply IH in Hrest as (new & Hh & Hcase). simpl in Hh, Hcase.
      exists ((observation v, a, reward) :: new).
      split; [by rewrite Hh, <- app_assoc|].
      destruct done.
      * destruct Hcase as (Hlen & Hts & Hmoves). split_and!; simpl; [lia| |done].
        replace (length new - 0)%nat with (S (length new - 1)) by lia. done.
      * destruct Hcase as (Hlen & Hmoves & Hlast & Hnil).
        split_and!; simpl; [lia|done| |done].
        destruct ts as [|t' ts]; [by rewrite Hnil|by rewrite last_cons, Hlast].
Qed.

(** The step loop takes the course that [played] tells: it goes on while
    [env.step] returns [done = False] and stops at the first [done = True]. *)
Lemma episode_loop_played {World} `{Runtime World} (ts : list Z) (epsilon : float)
    (k : Knowledge) (v v' : episode_vars) (w w' : World) (done : bool) :
  episode_loop ts epsilon k v w = Ok (v', done, w') →
  ∃ new,
    history v' = history v ++ new ∧
    played epsilon k (observation v) (best_actions_used v) w new done w'.
Proof.
  revert v w. induction ts as [|t ts IH]; intros v w; simpl.
  - intros [= <- <- <-]. exists []. rewrite app_nil_r. split; [done|constructor].
  - intros ([[a u] w1] & Hchoose & Hrest)%bind_Ok. simpl in Hrest.
    destruct (env_step a w1) as [[[obs reward] d] w2] eqn:Hstep.
    destruct d.
    + injection Hrest as <- <- <-. simpl. eexists [_]. split; [done|].
      by eapply played_done.
    + apply IH in Hrest as (new & Hh & Hplayed). simpl in Hh, Hplayed.
      exists ((observation v, a, reward) :: new).
      split; [by rewrite Hh, <- app_assoc|]. by eapply played_step.
Qed.


Lemma range_lookup (n : nat) (i : nat) (t : Z) :
  range 0 (Z.of_nat n) !! i = Some t → t = Z.of_nat i ∧ (i < n)%nat.
Proof.
  rewrite (range_nat 0), list_lookup_fmap.
  replace (Z.to_nat (Z.of_nat n) - 0)%nat with n by lia.
  destruct (seq 0 n !! i) as [j|] eqn:E; [|done].
  apply lookup_seq in E as [-> Hi]. by intros [= <-].
Qed.

(** The steps of an episode: at most 1000, exactly 1000 when the episode is
    not ended by [done], and counted into [total_moves] only when it is. *)
Lemma episode_steps {World} `{Runtime World} (epsilon : float) (k : Knowledge)
    (v v' : episode_vars) (w w' : World) (done : bool) :
  history v = [] →
  episode_loop (range 0 1000) epsilon k v w = Ok (v', done, w') →
  len (history v') = t_var v' + 1 ∧
  1 ≤ t_var v' + 1 ≤ 1000 ∧
  (done = false → t_var v' + 1 = 1000) ∧
  total_moves v' = total_moves v + (if done then t_var v' + 1 else 0).
Proof.
  intros Hv (new & Hh & Hcase)%episode_loop_inv.
  rewrite Hv in Hh. simpl in Hh. rewrite Hh. unfold len.
  destruct done.
  - destruct Hcase as (Hlen & Hts & Hmoves).
    apply (range_lookup 1000) in Hts as [Ht Hlt].
    split_and!; [lia|lia|lia|by intros [=]|done].
  - destruct Hcase as (Hlen & Hmoves & Hlast & _).
    assert (t_var v' = 999) as ->.
    { vm_compute in Hlast. by injection Hlast. }
    assert (length (range 0 1000) = 1000%nat) as Hr by (by vm_compute).
    rewrite Hr in Hlen. split_and!; [lia|lia|lia|done|lia].
Qed.

(** ** The fold of an episode into the table *)

Lemma update_knowledge_add_all (k : Knowledge) (history : list (state * Z * float))
    (td : list float) (alpha : float) :
  length td = length history →
  update_knowledge k history td alpha = add_all k (td_updates history td) alpha.
Proof.
  intros Hlen. unfold update_knowledge, enumerate, td_updates.
  assert (∀ (hist : list (state * Z * float)) (o : nat) (k : Knowledge),
    (o + length hist ≤ length td)%nat →
    for_each (imap (λ i x, (Z.of_nat (o + i), x)) hist)
      (λ '(idx, h) knowledge,
         target ← getitem td idx;
         add knowledge (fst (fst h)) (snd (fst h)) target alpha) k
    = add_all k
        (zip_with (λ h target, (fst (fst h), snd (fst h), target)) hist (drop o td))
        alpha) as Hgen.
  { induction hist as [|h hist IH]; intros o k0 Ho; [done|].
    simpl in Ho. destruct (lookup_is_Some_lt td o) as [t Ht]; [lia|].
    rewrite (drop_S _ _ _ Ht). simpl.
    rewrite (getitem_inr _ _ t) by (rewrite ?Nat.add_0_r, ?Nat2Z.id; done || lia).
    simpl. destruct (add k0 _ _ t alpha) as [k1|]; simpl; [|done].
    rewrite <- (IH (S o) k1) by lia. f_equal. apply imap_ext.
    intros i x _. simpl. do 2 f_equal. lia. }
  pose proof (Hgen history 0%nat k ltac:(simpl; lia)) as H0.
  rewrite drop_0 in H0. exact H0.
Qed.

Lemma td_updates_length (history : list (state * Z * float)) (td : list float) :
  length td = length history → length (td_updates history td) = length history.
Proof. intros Hlen. unfold td_updates. rewrite length_zip_with. lia. Qed.



Lemma get_estimate_ok (k : Knowledge) (st : state) (a : Z) :
  wf_knowledge k → 0 ≤ a < 4 → ∃ e, get_estimate k st a = Ok e.
Proof.
  intros Hwf Ha. destruct (nodes k !! st) as [n|] eqn:E.
  - rewrite (get_estimate_known _ _ _ _ E). unfold Node_get_estimate.
    destruct (Hwf _ _ E) as [Hq _].
    destruct (lookup_is_Some_lt (action_quality n) (Z.to_nat a)) as [q Eq]; [lia|].
    exists q. by rewrite (getitem_inr _ _ q) by (done || lia).
  - exists 0%float. by apply get_estimate_unknown.
Qed.


(** What one iteration of the loop over episodes has done when it returns. *)
Lemma run_episode_inv {World} `{Runtime World} (fpow : float → Z → result float)
    (alpha epsilon llambda : float) (k k' : Knowledge) (moves moves' steps : Z)
    (done : bool) (w w' : World) :
  run_episode fpow alpha epsilon llambda k moves w
    = Ok (k', moves', (steps, done), w') →
  ∃ v td,
    episode_loop (range 0 1000) epsilon k
      (mkVars (fst (env_reset w)) 0%float [] 0 moves 0) (snd (env_reset w))
      = Ok (v, done, w') ∧
    len (history v) = steps ∧ 1 ≤ steps ≤ 1000 ∧
    (done = false → steps = 1000) ∧
    td_lambda_estimate fpow llambda (history v) = Ok td ∧
    length td = length (history v) ∧
    add_all k (td_updates (history v) td) alpha = Ok k' ∧
    moves' = moves + (if done then steps else 0).
Proof.
  unfold run_episode. destruct (env_reset w) as [obs w0]. cbn [fst snd].
  intros ([[v d] w1] & Hloop & Hrest)%bind_Ok. cbv beta iota in Hrest.
  apply bind_Ok in Hrest as (td & Htd & Hrest).
  apply bind_Ok in Hrest as (es & _ & Hrest).
  apply bind_Ok in Hrest as (k1 & Hupd & Hrest).
  injection Hrest as <- <- <- <- <-.
  pose proof (td_lambda_estimate_length _ _ _ _ Htd) as Hlen.
  rewrite update_knowledge_add_all in Hupd by done.
  destruct (episode_steps epsilon k (mkVars obs 0%float [] 0 moves 0) v w0 w1 d
              eq_refl Hloop)
    as (Hsteps & Hrange & Htrunc & Hmoves).
  cbn [total_moves] in Hmoves.
  exists v, td. split_and!; done || lia.
Qed.


(** The course of one iteration of the loop over episodes. *)
Lemma run_episode_played {World} `{Runtime World} (fpow : float → Z → result float)
    (alpha epsilon llambda : float) (k k' : Knowledge) (moves moves' steps : Z)
    (done : bool) (w w' : World) :
  run_episode fpow alpha epsilon llambda k moves w
    = Ok (k', moves', (steps, done), w') →
  ∃ hist td,
    played epsilon k (fst (env_reset w)) 0 (snd (env_reset w)) hist done w' ∧
    len hist = steps ∧
    td_lambda_estimate fpow llambda hist = Ok td ∧
    add_all k (td_updates hist td) alpha = Ok k'.
Proof.
  intros (v & td & Hloop & Hsteps & _ & _ & Htd & _ & Hadd & _)%run_episode_inv.
  apply episode_loop_played in Hloop as (new & Hh & Hplayed).
  simpl in Hh, Hplayed. subst new. by exists (history v), td.
Qed.





(** ** The count of moves *)

Lemma counted_moves_app (l1 l2 : list (Z * bool)) :
  counted_moves (l1 ++ l2) = counted_moves l1 + counted_moves l2.
Proof.
  unfold counted_moves. induction l1 as [|e l1 IH]; simpl; [done|].
  rewrite IH. lia.
Qed.

Lemma main_loop_inv {World} `{Runtime World} (fpow : float → Z → result float)
    (n : nat) (alpha epsilon llambda : float) (k k' : Knowledge)
    (moves moves' : Z) (log log' : list (Z * bool)) (w w' : World) :
  main_loop fpow n alpha epsilon llambda k moves log w = Ok (k', moves', log', w') →
  ∃ new,
    log' = log ++ new ∧ length new = n ∧
    moves' = moves + counted_moves new ∧
    Forall (λ e, 1 ≤ fst e ≤ 1000 ∧ (snd e = false → fst e = 1000)) new.
Proof.
  revert k moves log w. induction n as [|n IH]; intros k moves log w; simpl.
  - intros [= <- <- <- <-]. exists []. rewrite app_nil_r.
    split_and!; [done|done|unfold counted_moves; simpl; lia|apply Forall_nil_2].
  - intros ([[[k1 m1] [steps done]] w1] & Hrun & Hrest)%bind_Ok. simpl in Hrest.
    apply IH in Hrest as (new & -> & Hlen & -> & Hall).
    apply run_episode_inv in Hrun
      as (v & td & _ & _ & Hrange & Htrunc & _ & _ & _ & ->).
    exists ((steps, done) :: new). split_and!.
    + by rewrite <- app_assoc.
    + simpl. lia.
    + unfold counted_moves. simpl. fold (counted_moves new). lia.
    + by apply Forall_cons_2.
Qed.

(** The course of the loop over episodes. *)
Lemma main_loop_played {World} `{Runtime World} (fpow : float → Z → result float)
    (n : nat) (alpha epsilon llambda : float) (k k' : Knowledge)
    (moves moves' : Z) (log log' : list (Z * bool)) (w w' : World) :
  main_loop fpow n alpha epsilon llambda k moves log w = Ok (k', moves', log', w') →
  ∃ new, log' = log ++ new ∧
         episodes_played fpow alpha epsilon llambda k w new k' w'.
Proof.
  revert k moves log w. induction n as [|n IH]; intros k moves log w; simpl.
  - intros [= <- <- <- <-]. exists []. rewrite app_nil_r. split; [done|constructor].
  - intros ([[[k1 m1] [steps done]] w1] & Hrun & Hrest)%bind_Ok. simpl in Hrest.
    apply IH in Hrest as (new & -> & Hplayed).
    apply run_episode_played in Hrun as (hist & td & Hhist & <- & Htd & Hadd).
    exists ((len hist, done) :: new). split; [by rewrite <- app_assoc|].
    by eapply episodes_cons.
Qed.

(** C9: the moves reported at the end are the step counts of the episodes
    for which [env.step] returned [done = True], added up.  An episode cut at
    1000 steps, in which [env.step] never returned [done = True], adds nothing
    to them, while the 1000 steps of its history are still folded into the
    table, each with its target. *)
Theorem total_moves_counts_done_episodes {World} `{Runtime World}
    (fpow : float → Z → result float) (n : nat) (alpha epsilon llambda : float)
    (k k' : Knowledge) (moves moves' : Z) (log log' : list (Z * bool))
    (w w' : World) :
  main_loop fpow n alpha epsilon llambda k moves log w = Ok (k', moves', log', w') →
  (∃ new,
     log' = log ++ new ∧ length new = n ∧
     episodes_played fpow alpha epsilon llambda k w new k' w' ∧
     moves' = moves + counted_moves new ∧
     Forall (λ e, 1 ≤ fst e ≤ 1000 ∧ (snd e = false → fst e = 1000)) new) ∧
  (∀ k1 k2 m1 m2 steps done w1 w2,
     run_episode fpow alpha epsilon llambda k1 m1 w1
       = Ok (k2, m2, (steps, done), w2) →
     ∃ hist td,
       played epsilon k1 (fst (env_reset w1)) 0 (snd (env_reset w1)) hist done w2 ∧
       len hist = steps ∧
       td_lambda_estimate fpow llambda hist = Ok td ∧
       len (td_updates hist td) = steps ∧
       add_all k1 (td_updates hist td) alpha = Ok k2 ∧
       m2 = m1 + (if done then steps else 0) ∧
       (done = false → m2 = m1 ∧ steps = 1000)).
Proof.
  intros Hmain. split.
  - destruct (main_loop_inv _ _ _ _ _ _ _ _ _ _ _ _ _ Hmain)
      as (new & Hlog & Hlen & Hmoves & Hall).
    destruct (main_loop_played _ _ _ _ _ _ _ _ _ _ _ _ _ Hmain)
      as (new' & Hlog' & Hplayed).
    rewrite Hlog in Hlog'. apply app_inv_head in Hlog'. subst new'.
    by exists new.
  - intros k1 k2 m1 m2 steps done w1 w2 Hrun.
    destruct (run_episode_played _ _ _ _ _ _ _ _ _ _ _ _ Hrun)
      as (hist & td & Hplayed & Hsteps & Htd & Hadd).
    apply run_episode_inv in Hrun
      as (v & td' & _ & _ & Hrange & Htrunc & _ & _ & _ & ->).
    exists hist, td. split_and!; try done.
    + unfold len in *. rewrite td_updates_length; [done|].
      by eapply td_lambda_estimate_length.
    + intros ->. rewrite (Htrunc eq_refl). split; [lia|done].
Qed.

Lemma total_moves_counts_done_episodes_witness :
  ∃ k' w',
    main_loop py_pow 2 0x1p-1 0x1p-3 0x1p-1 Knowledge_init 0 []
      (mkToy 0 0 [3%nat; 0%nat])
      = Ok (k', 3, [(3, true); (1000, false)], w') ∧
    (∃ new,
       [(3, true); (1000, false)] = [] ++ new ∧ length new = 2%nat ∧
       episodes_played py_pow 0x1p-1 0x1p-3 0x1p-1 Knowledge_init
         (mkToy 0 0 [3%nat; 0%nat]) new k' w' ∧
       3 = 0 + counted_moves new ∧
       Forall (λ e, 1 ≤ fst e ≤ 1000 ∧ (snd e = false → fst e = 1000)) new) ∧
    (∀ k1 k2 m1 m2 steps done (w1 w2 : toy_world),
       run_episode py_pow 0x1p-1 0x1p-3 0x1p-1 k1 m1 w1
         = Ok (k2, m2, (steps, done), w2) →
       ∃ hist td,
         played 0x1p-3 k1 (fst (env_reset w1)) 0 (snd (env_reset w1)) hist done w2 ∧
         len hist = steps ∧
         td_lambda_estimate py_pow 0x1p-1 hist = Ok td ∧
         len (td_updates hist td) = steps ∧
         add_all k1 (td_updates hist td) 0x1p-1 = Ok k2 ∧
         m2 = m1 + (if done then steps else 0) ∧
         (done = false → m2 = m1 ∧ steps = 1000)).
Proof.
  do 2 eexists. split; [vm_compute; reflexivity|].
  eapply (total_moves_counts_done_episodes (World := toy_world) py_pow 2
            0x1p-1 0x1p-3 0x1p-1 Knowledge_init _ 0 3 []
            [(3, true); (1000, false)] (mkToy 0 0 [3%nat; 0%nat])).
  vm_compute. reflexivity.
Defined.

(** * Further properties of the table *)

Lemma fold_add_acc (l : list Z) (a : Z) :
  fold_left Z.add l a = a + fold_left Z.add l 0.
Proof.
  revert a. induction l as [|x l IH]; intros a; simpl; [lia|].
  rewrite (IH (a + x)), (IH (0 + x)). lia.
Qed.

Lemma sum_insert_succ (l : list Z) (i : nat) (c a : Z) :
  l !! i = Some c →
  fold_left Z.add (<[i := c + 1]> l) a = fold_left Z.add l a + 1.
Proof.
  revert i a. induction l as [|x l IH]; intros [|i] a; simpl; try done.
  - intros [= ->].
    rewrite (fold_add_acc l (a + (c + 1))), (fold_add_acc l (a + c)). lia.
  - intros Hi. by apply IH.
Qed.

Lemma add_visited (k : Knowledge) (st0 st : state) (a : Z) (v alpha : float) :
  wf_knowledge k → 0 ≤ a < 4 →
  ∃ k', add k st0 a v alpha = Ok k' ∧
        visited (node_of k' st) =
          visited (node_of k st) + (if decide (st0 = st) then 1 else 0).
Proof.
  intros Hwf Ha.
  destruct (add_inr k st0 a v alpha Hwf Ha) as (c & q & k' & Hc & _ & Hadd & Hn).
  exists k'. split; [done|].
  destruct (decide (st0 = st)) as [<-|Hne].
  - unfold visited. rewrite Hn. simpl. apply sum_insert_succ.
    apply getitem_Ok_lookup in Hc as (j & Hj & Hl).
    destruct (wf_node_of k st0 Hwf) as [_ Hlen].
    rewrite norm_index_inr in Hj by lia. by injection Hj as <-.
  - unfold node_of. rewrite (add_node_of_ne _ _ _ _ _ _ _ Hadd Hne). lia.
Qed.

Lemma state_targets_cons (st : state) (x : state * Z * float)
    (l : list (state * Z * float)) :
  state_targets st (x :: l) =
    (if decide (fst (fst x) = st) then 1 else 0) + state_targets st l.
Proof.
  unfold state_targets, states_of, len. rewrite fmap_cons, filter_cons.
  destruct (decide (fst (fst x) = st)); simpl; lia.
Qed.

(** X1: [visited] counts the updates of a state: after any sequence of
    updates with actions in [0..3], the visits of each state have grown by
    the number of updates that target the state, so that in a table built
    from the empty one they are that number. *)
Theorem visited_counts_updates (l : list (state * Z * float)) (alpha : float)
    (k : Knowledge) (st : state) :
  wf_knowledge k → valid_actions l →
  ∃ k', add_all k l alpha = Ok k' ∧
        visited (node_of k' st) = visited (node_of k st) + state_targets st l ∧
        (nodes k = ∅ → visited (node_of k' st) = state_targets st l).
Proof.
  revert k. induction l as [|[[st0 a0] v] l IH]; intros k Hwf Hl.
  - exists k. split; [done|]. split; [unfold state_targets, len; simpl; lia|].
    intros E. unfold node_of. by rewrite E, lookup_empty.
  - apply Forall_cons in Hl as [Ha0 Hl]. simpl in Ha0.
    destruct (add_visited k st0 st a0 v alpha Hwf Ha0) as (k1 & Hadd & Hv1).
    destruct (IH k1 (add_wf _ _ _ _ _ _ Hwf Hadd) Hl) as (k' & Hall & Hv & _).
    exists k'. simpl. rewrite Hadd. simpl. split; [done|].
    rewrite state_targets_cons. simpl.
    assert (visited (node_of k' st) =
            visited (node_of k st) +
            ((if decide (st0 = st) then 1 else 0) + state_targets st l)) as Hsum
      by lia.
    split; [done|].
    intros E. rewrite Hsum. unfold node_of at 1. by rewrite E, lookup_empty.
Qed.

Lemma visited_counts_updates_witness :
  ∃ k', add_all Knowledge_init three_states 0x1p-1 = Ok k' ∧
        visited (node_of k' board_a) =
          visited (node_of Knowledge_init board_a)
          + state_targets board_a three_states ∧
        (nodes Knowledge_init = ∅ →
         visited (node_of k' board_a) = state_targets board_a three_states).
Proof.
  apply (visited_counts_updates three_states 0x1p-1 Knowledge_init board_a).
  - apply wf_Knowledge_init.
  - unfold valid_actions, three_states.
    repeat (apply Forall_cons_2; [simpl; lia|]). apply Forall_nil_2.
Defined.

Lemma add_dom (k k' : Knowledge) (st : state) (a : Z) (v alpha : float) :
  add k st a v alpha = Ok k' → dom (nodes k') = {[st]} ∪ dom (nodes k).
Proof.
  rewrite add_as_update. intros (nd' & _ & [= <-])%bind_Ok. simpl.
  apply dom_insert_L.
Qed.

Lemma add_all_dom (l : list (state * Z * float)) (alpha : float) (k k' : Knowledge) :
  add_all k l alpha = Ok k' →
  dom (nodes k') = list_to_set (states_of l) ∪ dom (nodes k).
Proof.
  revert k. induction l as [|[[st a] v] l IH]; cbn [add_all]; intros k.
  - intros [= <-]. change (states_of []) with (@nil state).
    by rewrite list_to_set_nil, (left_id_L ∅ (∪)).
  - intros (k1 & Hadd & Hrest)%bind_Ok.
    rewrite (IH _ Hrest), (add_dom _ _ _ _ _ _ Hadd).
    change (states_of ((st, a, v) :: l)) with (st :: states_of l).
    rewrite list_to_set_cons.
    by rewrite (assoc_L (∪)), (comm_L (∪) (list_to_set _) {[st]}).
Qed.

Lemma gset_size_union_le (X Y : gset (list Z)) :
  (size (X ∪ Y) ≤ size X + size Y)%nat.
Proof.
  rewrite size_union_alt. apply Nat.add_le_mono_l, subseteq_size, subseteq_difference_l.
  done.
Qed.

Lemma add_all_size_bounds (l : list (state * Z * float)) (alpha : float)
    (k k' : Knowledge) :
  add_all k l alpha = Ok k' →
  (Knowledge_size k ≤ Knowledge_size k' ≤ Knowledge_size k + length l)%nat.
Proof.
  intros Hall. unfold Knowledge_size.
  rewrite <- !size_dom, (add_all_dom _ _ _ _ Hall).
  assert (size (list_to_set (states_of l) : gset (list Z)) ≤ length l)%nat as Hle.
  { unfold states_of. rewrite <- (length_fmap (λ x, fst (fst x)) l).
    generalize ((λ x : state * Z * float, fst (fst x)) <$> l). intros ss.
    induction ss as [|s ss IH]; [by rewrite list_to_set_nil, size_empty|].
    rewrite list_to_set_cons. etrans; [apply gset_size_union_le|].
    rewrite size_singleton. simpl. lia. }
  split.
  - apply subseteq_size, union_subseteq_r.
  - etrans; [apply gset_size_union_le|]. lia.
Qed.

(** X2: the states known after a sequence of updates are the states known
    before and the states targeted, no more and no fewer; so [size] never
    decreases, grows by at most the number of updates, and in a table built
    from the empty one is the number of distinct states targeted. *)
Theorem size_counts_distinct_states (l : list (state * Z * float)) (alpha : float)
    (k k' : Knowledge) :
  add_all k l alpha = Ok k' →
  dom (nodes k') = list_to_set (states_of l) ∪ dom (nodes k) ∧
  (Knowledge_size k ≤ Knowledge_size k' ≤ Knowledge_size k + length l)%nat ∧
  (nodes k = ∅ →
   Knowledge_size k' = size (list_to_set (states_of l) : gset (list Z))).
Proof.
  intros Hall. pose proof (add_all_dom _ _ _ _ Hall) as Hdom.
  split; [done|]. split; [by eapply add_all_size_bounds|].
  intros E. unfold Knowledge_size.
  by rewrite <- size_dom, Hdom, E, dom_empty_L, (right_id_L ∅ (∪)).
Qed.

Lemma size_counts_distinct_states_witness :
  ∃ k',
    add_all Knowledge_init three_states 0x1p-1 = Ok k' ∧
    dom (nodes k') = list_to_set (states_of three_states) ∪ dom (nodes Knowledge_init) ∧
    (Knowledge_size Knowledge_init ≤ Knowledge_size k'
     ≤ Knowledge_size Knowledge_init + length three_states)%nat ∧
    (nodes Knowledge_init = ∅ →
     Knowledge_size k' = size (list_to_set (states_of three_states) : gset (list Z))).
Proof.
  eexists. split; [vm_compute; reflexivity|].
  apply (size_counts_distinct_states three_states 0x1p-1 Knowledge_init).
  vm_compute. reflexivity.
Defined.

Lemma get_estimate_quality_of (k : Knowledge) (st : state) (a : Z) :
  wf_knowledge k → 0 ≤ a < 4 → get_estimate k st a = quality_of k st a.
Proof.
  intros Hwf Ha. unfold quality_of, node_of.
  destruct (nodes k !! st) as [n|] eqn:E; simpl.
  - rewrite (get_estimate_known _ _ _ _ E). unfold Node_get_estimate.
    destruct (Hwf _ _ E) as [Hq _].
    destruct (lookup_is_Some_lt (action_quality n) (Z.to_nat a)) as [q Eq]; [lia|].
    by rewrite (getitem_inr _ _ q) by (done || lia).
  - rewrite (get_estimate_unknown _ _ _ E). symmetry. by apply Node_init_estimate.
Qed.

(** X3: [add] followed by [get_estimate] reads back the update rule applied
    to what [get_estimate] read before, which for a state seen for the first
    time is the default [0.0]; the estimate of every other state and action
    is what it was. *)
Theorem add_then_get_estimate (k : Knowledge) (st : state) (a : Z)
    (v alpha : float) :
  wf_knowledge k → 0 ≤ a < 4 →
  ∃ q k',
    get_estimate k st a = Ok q ∧
    add k st a v alpha = Ok k' ∧
    get_estimate k' st a = Ok (q + (v - q) * alpha)%float ∧
    (nodes k !! st = None → q = 0%float) ∧
    (∀ st' b, 0 ≤ b < 4 → (st', b) ≠ (st, a) →
       get_estimate k' st' b = get_estimate k st' b).
Proof.
  intros Hwf Ha.
  destruct (add_slots k st a v alpha Hwf Ha)
    as (c & q & k' & _ & Hq & Hadd & _ & Hq' & Hother).
  pose proof (add_wf _ _ _ _ _ _ Hwf Hadd) as Hwf'.
  exists q, k'. split_and!.
  - by rewrite get_estimate_quality_of.
  - done.
  - by rewrite get_estimate_quality_of.
  - intros E. rewrite <- (get_estimate_quality_of k st a Hwf Ha) in Hq.
    rewrite (get_estimate_unknown _ _ _ E) in Hq. by injection Hq.
  - intros st' b Hb Hne. rewrite !get_estimate_quality_of by done.
    by apply Hother.
Qed.

Lemma add_then_get_estimate_witness :
  ∃ q k',
    get_estimate Knowledge_init board_a 1 = Ok q ∧
    add Knowledge_init board_a 1 4 0x1p-1 = Ok k' ∧
    get_estimate k' board_a 1 = Ok (q + (4 - q) * 0x1p-1)%float ∧
    (nodes Knowledge_init !! board_a = None → q = 0%float) ∧
    (∀ st' b, 0 ≤ b < 4 → (st', b) ≠ (board_a, 1) →
       get_estimate k' st' b = get_estimate Knowledge_init st' b).
Proof.
  apply (add_then_get_estimate Knowledge_init board_a 1 4 0x1p-1).
  - apply wf_Knowledge_init.
  - lia.
Defined.

Lemma getitem_cases {A} (l : list A) (i : Z) :
  (∃ x, getitem l i = Ok x) ∨ getitem l i = Raise IndexError.
Proof.
  unfold getitem. destruct (norm_index (length l) i) as [j|e] eqn:E; simpl.
  - apply norm_index_lt in E. destruct (lookup_is_Some_lt l j E) as [x ->]. eauto.
  - right. unfold norm_index in E.
    destruct (_ || _) in E; [by injection E as <-|done].
Qed.

(** X4: the lookups of the table raise neither [KeyError] nor
    [AttributeError]: [get_node_for_state] always returns, with the node of
    the state or with [None], and [get_estimate] returns an estimate or
    raises [IndexError]. *)
Theorem lookups_raise_only_IndexError (k : Knowledge) (st : state) (a : Z) :
  get_node_for_state k st = Ok (nodes k !! st) ∧
  ((∃ q, get_estimate k st a = Ok q) ∨ get_estimate k st a = Raise IndexError).
Proof.
  split; [apply get_node_for_state_lookup|].
  destruct (nodes k !! st) as [n|] eqn:E.
  - rewrite (get_estimate_known _ _ _ _ E). unfold Node_get_estimate.
    destruct (getitem_cases (action_quality n) a) as [[q ->]| ->]; simpl; eauto.
  - left. exists 0%float. by apply get_estimate_unknown.
Qed.

Lemma norm_index_wrap_eq (n : nat) (a : Z) :
  - Z.of_nat n ≤ a < 0 → norm_index n a = norm_index n (a + Z.of_nat n).
Proof. intros Ha. by rewrite norm_index_wrap, norm_index_inr by lia. Qed.

Lemma update_action_wrap (n : Node) (a : Z) (v alpha : float) :
  wf_node n → -4 ≤ a < 0 →
  update_action n a v alpha = update_action n (a + 4) v alpha.
Proof.
  intros [Hq Hc] Ha. unfold update_action, getitem, setitem.
  rewrite Hq, Hc. by rewrite (norm_index_wrap_eq 4 a) by lia.
Qed.

Lemma update_action_out (n : Node) (a : Z) (v alpha : float) :
  wf_node n → 4 ≤ a ∨ a < -4 → update_action n a v alpha = Raise IndexError.
Proof.
  intros [Hq Hc] Ha. unfold update_action.
  rewrite (getitem_out (action_count n)) by (unfold len; lia). reflexivity.
Qed.

(** X5: the action of [add] is a list subscript: an action in [-4..-1]
    updates the slot counted from the end, exactly as the action plus 4
    does, and an action of 4 or more or below [-4] makes [add] raise
    [IndexError]. *)
Theorem add_action_is_subscript (k : Knowledge) (st : state) (a : Z)
    (v alpha : float) :
  wf_knowledge k →
  (-4 ≤ a < 0 → add k st a v alpha = add k st (a + 4) v alpha) ∧
  (4 ≤ a ∨ a < -4 → add k st a v alpha = Raise IndexError).
Proof.
  intros Hwf. pose proof (wf_node_of k st Hwf) as Hn. rewrite !add_as_update.
  split; intros Ha.
  - by rewrite update_action_wrap.
  - rewrite update_action_out by done. reflexivity.
Qed.

Lemma add_action_is_subscript_witness :
  (-4 ≤ -1 < 0 →
   add Knowledge_init board_a (-1) 4 0x1p-1 = add Knowledge_init board_a (-1 + 4) 4 0x1p-1) ∧
  (4 ≤ -1 ∨ -1 < -4 → add Knowledge_init board_a (-1) 4 0x1p-1 = Raise IndexError).
Proof.
  apply (add_action_is_subscript Knowledge_init board_a (-1) 4 0x1p-1).
  apply wf_Knowledge_init.
Defined.

(** X6: after any sequence of updates, the estimate of a slot is the update
    rule folded, in order, over the observed returns of the updates that
    target the slot, starting from the estimate before; the updates of
    other slots do not matter. *)
Theorem estimate_folds_slot_returns (l : list (state * Z * float)) (alpha : float)
    (k : Knowledge) (st : state) (a : Z) :
  wf_knowledge k → valid_actions l → 0 ≤ a < 4 →
  ∃ q k',
    get_estimate k st a = Ok q ∧
    add_all k l alpha = Ok k' ∧
    get_estimate k' st a =
      Ok (fold_left (λ q v, q + (v - q) * alpha)%float (slot_returns st a l) q).
Proof.
  intros Hwf Hl Ha. revert k Hwf.
  induction l as [|[[st0 a0] v] l IH]; intros k Hwf.
  - destruct (get_estimate_ok k st a Hwf Ha) as [q Hq]. by exists q, k.
  - apply Forall_cons in Hl as [Ha0 Hl]. simpl in Ha0.
    destruct (add_slots k st0 a0 v alpha Hwf Ha0)
      as (c0 & q0 & k1 & _ & Hq0 & Hadd & _ & Hq1 & Hother).
    pose proof (add_wf _ _ _ _ _ _ Hwf Hadd) as Hwf1.
    destruct (IH Hl k1 Hwf1) as (q1 & k' & Hq1' & Hall & Hfold).
    rewrite get_estimate_quality_of in Hq1' by done.
    cbn [add_all]. rewrite Hadd. cbn [mbind result_bind].
    unfold slot_returns. rewrite filter_cons. cbn [fst].
    destruct (decide ((st0, a0) = (st, a))) as [[= -> ->]|Hne].
    + exists q0, k'. rewrite get_estimate_quality_of by done.
      split_and!; [done|done|]. rewrite Hfold. rewrite Hq1 in Hq1'.
      injection Hq1' as <-. done.
    + exists q1, k'. rewrite get_estimate_quality_of by done.
      destruct (Hother st a Ha) as [_ Hsame]; [congruence|].
      split_and!; [congruence|done|done].
Qed.

Lemma estimate_folds_slot_returns_witness :
  ∃ q k',
    get_estimate Knowledge_init board_a 0 = Ok q ∧
    add_all Knowledge_init three_states 0x1p-1 = Ok k' ∧
    get_estimate k' board_a 0 =
      Ok (fold_left (λ q v, q + (v - q) * 0x1p-1)%float
            (slot_returns board_a 0 three_states) q).
Proof.
  apply (estimate_folds_slot_returns three_states 0x1p-1 Knowledge_init board_a 0).
  - apply wf_Knowledge_init.
  - unfold valid_actions, three_states.
    repeat (apply Forall_cons_2; [simpl; lia|]). apply Forall_nil_2.
  - lia.
Defined.

(** [add] written out on a well-formed table. *)
Lemma add_explicit (k : Knowledge) (st : state) (a : Z) (v alpha : float) :
  wf_knowledge k → 0 ≤ a < 4 →
  ∃ c q,
    action_count (node_of k st) !! Z.to_nat a = Some c ∧
    action_quality (node_of k st) !! Z.to_nat a = Some q ∧
    add k st a v alpha =
      Ok (mkKnowledge
            (<[st := mkNode
                       (<[Z.to_nat a := (q + (v - q) * alpha)%float]>
                          (action_quality (node_of k st)))
                       (<[Z.to_nat a := c + 1]> (action_count (node_of k st)))]>
               (nodes k))).
Proof.
  intros Hwf Ha.
  destruct (update_action_inr (node_of k st) a v alpha (wf_node_of k st Hwf) Ha)
    as (c & q & Hc & Hq & Hu).
  exists c, q. split; [done|]. split; [done|]. by rewrite add_as_update, Hu.
Qed.

Lemma node_of_insert_eq (m : gmap (list Z) Node) (st : state) (n : Node) :
  node_of (mkKnowledge (<[st := n]> m)) st = n.
Proof. unfold node_of. simpl. by rewrite lookup_insert_eq. Qed.

Lemma node_of_insert_ne (m : gmap (list Z) Node) (st st' : state) (n : Node) :
  st ≠ st' → node_of (mkKnowledge (<[st := n]> m)) st' = node_of (mkKnowledge m) st'.
Proof. intros Hne. unfold node_of. simpl. by rewrite lookup_insert_ne. Qed.

(** X7: two updates of different slots of the table, be it of two states or
    of two actions of one state, give the same table in either order. *)
Theorem adds_to_different_slots_commute (k : Knowledge) (s1 s2 : state)
    (a1 a2 : Z) (v1 v2 alpha1 alpha2 : float) :
  wf_knowledge k → 0 ≤ a1 < 4 → 0 ≤ a2 < 4 → (s1, a1) ≠ (s2, a2) →
  (k1 ← add k s1 a1 v1 alpha1; add k1 s2 a2 v2 alpha2)
  = (k2 ← add k s2 a2 v2 alpha2; add k2 s1 a1 v1 alpha1).
Proof.
  intros Hwf Ha1 Ha2 Hne. destruct k as [m].
  destruct (add_explicit (mkKnowledge m) s1 a1 v1 alpha1 Hwf Ha1)
    as (c1 & q1 & Hc1 & Hq1 & E1).
  destruct (add_explicit (mkKnowledge m) s2 a2 v2 alpha2 Hwf Ha2)
    as (c2 & q2 & Hc2 & Hq2 & E2).
  pose proof (add_wf _ _ _ _ _ _ Hwf E1) as Hwf1.
  pose proof (add_wf _ _ _ _ _ _ Hwf E2) as Hwf2.
  rewrite E1, E2. cbn [mbind result_bind nodes] in *.
  destruct (add_explicit _ s2 a2 v2 alpha2 Hwf1 Ha2) as (c2' & q2' & Hc2' & Hq2' & ->).
  destruct (add_explicit _ s1 a1 v1 alpha1 Hwf2 Ha1) as (c1' & q1' & Hc1' & Hq1' & ->).
  cbn [nodes] in *. destruct (decide (s1 = s2)) as [<-|Hs].
  - assert (Z.to_nat a1 ≠ Z.to_nat a2) as Hna by (intros ?; apply Hne; f_equal; lia).
    rewrite !node_of_insert_eq in *. cbn [action_count action_quality] in *.
    assert (Z.to_nat a2 ≠ Z.to_nat a1) as Hna' by done.
    rewrite list_lookup_insert_ne in Hc1', Hc2' by done.
    rewrite list_lookup_insert_ne in Hq1', Hq2' by done.
    assert (c1' = c1) as -> by congruence. assert (q1' = q1) as -> by congruence.
    assert (c2' = c2) as -> by congruence. assert (q2' = q2) as -> by congruence.
    rewrite !insert_insert_eq.
    assert (∀ A (l : list A) x y,
              <[Z.to_nat a2 := x]> (<[Z.to_nat a1 := y]> l)
              = <[Z.to_nat a1 := y]> (<[Z.to_nat a2 := x]> l)) as Hswap
      by (intros; by apply list_insert_insert_ne).
    by rewrite !Hswap.
  - rewrite !node_of_insert_ne in * by done.
    assert (c1' = c1) as -> by congruence. assert (q1' = q1) as -> by congruence.
    assert (c2' = c2) as -> by congruence. assert (q2' = q2) as -> by congruence.
    do 2 f_equal. by apply insert_insert_ne.
Qed.

Lemma adds_to_different_slots_commute_witness :
  (k1 ← add Knowledge_init board_a 0 4 0x1p-1; add k1 board_a 3 8 0x1p-2)
  = (k2 ← add Knowledge_init board_a 3 8 0x1p-2; add k2 board_a 0 4 0x1p-1).
Proof.
  apply (adds_to_different_slots_commute Knowledge_init board_a board_a 0 3
           4 8 0x1p-1 0x1p-2).
  - apply wf_Knowledge_init.
  - lia.
  - lia.
  - intros [=].
Defined.

(** X8: what [dump] prints for every limit: the states in descending order
    of visits, all of them when the limit is 0, the first one when the limit
    is negative, and the first [limit + 1] of them when it is positive; it
    never raises. *)
Theorem dump_for_every_limit (self : Knowledge) (limit : Z) :
  ∃ sorted,
    sorted ≡ₚ map_to_list (nodes self) ∧ descending sorted ∧
    dump self limit =
      Ok (take (if limit =? 0 then length sorted
                else if limit <? 0 then 1%nat
                else (Z.to_nat limit + 1)%nat) sorted).
Proof.
  exists (sorted_by_visited (map_to_list (nodes self))).
  split; [apply sorted_by_visited_perm|].
  split; [apply sorted_by_visited_descending|].
  unfold dump. set (sorted := sorted_by_visited _).
  assert (∀ n nod, (n, nod) ∈ sorted → nodes self !! n = Some nod) as Hin.
  { intros n nod Hn. unfold sorted in Hn. rewrite sorted_by_visited_perm in Hn.
    by apply elem_of_map_to_list in Hn. }
  destruct (Z.eqb_spec limit 0) as [->|Hne].
  - rewrite dump_loop_unlimited by done. by rewrite take_ge.
  - destruct (Z.ltb_spec limit 0) as [Hneg|Hpos].
    + destruct sorted as [|[n nod] rest]; [done|]. simpl.
      unfold dict_getitem. rewrite (Hin n nod) by left. simpl.
      destruct (Z.eqb_spec limit 0); [done|].
      destruct (Z.ltb_spec limit (0 + 1)); [|lia]. by rewrite take_0.
    + rewrite dump_loop_limited by (done || lia). simpl. do 2 f_equal. lia.
Qed.

Lemma float_eqb_not_ltb (x y : float) :
  (x =? y)%float = true → (x <? y)%float = false.
Proof.
  rewrite FloatAxioms.eqb_spec, ltb_spec. unfold SFeqb, SFltb.
  by destruct (SFcompare (Prim2SF x) (Prim2SF y)) as [[]|].
Qed.

Lemma float_eqb_not_nan (x y : float) : (x =? y)%float = true → is_nan x = false.
Proof.
  rewrite FloatAxioms.eqb_spec. unfold SFeqb. intros Hxy.
  destruct (is_nan x) eqn:E; [|done].
  rewrite (is_nan_true_Prim2SF x E) in Hxy. done.
Qed.

Lemma NoDup_all_equal (l : list Z) (y : Z) :
  NoDup l → y ∈ l → (∀ x, x ∈ l → x = y) → l = [y].
Proof.
  intros Hnd Hy Hall. destruct l as [|x [|x' l]].
  - by apply elem_of_nil in Hy.
  - by rewrite (Hall x) by left.
  - apply NoDup_cons in Hnd as [Hx _]. exfalso. apply Hx.
    rewrite (Hall x) by left. rewrite (Hall x') by (right; left). left.
Qed.

(** X9: when one slot holds a number greater than every other slot,
    [best_action] returns its action, whatever the random draw. *)
Theorem best_action_unique_maximum {World} `{RuntimeLaws World}
    (n : Node) (a : nat) (q : float) (w : World) :
  action_quality n !! a = Some q → is_nan q = false →
  (∀ b qb, b ≠ a → action_quality n !! b = Some qb → (qb <? q)%float = true) →
  joint_best_actions n = Ok [Z.of_nat a] ∧
  ∃ w', best_action n w = Ok (Z.of_nat a, w').
Proof.
  intros Ha Hq Hgt.
  destruct (action_quality n) as [|q0 qs] eqn:E; [by rewrite lookup_nil in Ha|].
  destruct (joint_best_actions_spec n q0 qs E)
    as (M & joint & _ & Hj & Hnd & Hmem & Hmax & HMin & _ & _).
  rewrite E in Hmem, Hmax, HMin.
  assert (M = q) as ->.
  { apply list_elem_of_lookup_1 in HMin as [i Hi].
    destruct (decide (i = a)) as [->|Hne]; [congruence|].
    pose proof (Hgt i M Hne Hi) as Hlt. by rewrite (Hmax a q Ha) in Hlt. }
  assert (joint = [Z.of_nat a]) as ->.
  { apply NoDup_all_equal; [done|..].
    - apply Hmem. exists q. rewrite Nat2Z.id.
      split_and!; [lia|done|by apply float_eqb_refl].
    - intros b (qb & Hb & Hl & Heq)%Hmem.
      destruct (decide (Z.to_nat b = a)) as [<-|Hne]; [lia|].
      pose proof (Hgt _ _ Hne Hl) as Hlt.
      by rewrite (float_eqb_not_ltb _ _ Heq) in Hlt. }
  split; [done|].
  destruct (random_below (length [Z.of_nat a]) w) as [j w'] eqn:Hr.
  pose proof (random_below_lt 1 w ltac:(lia)) as Hlt.
  simpl in Hr. rewrite Hr in Hlt. simpl in Hlt.
  exists w'. rewrite (best_action_draw n [Z.of_nat a] w w' j Hj Hr).
  by replace j with 0%nat by lia.
Qed.

Lemma best_action_unique_maximum_witness :
  joint_best_actions (mkNode [0; 2; 1; 0]%float [0; 1; 1; 0]) = Ok [Z.of_nat 1] ∧
  ∃ w', best_action (mkNode [0; 2; 1; 0]%float [0; 1; 1; 0]) (mkToy 7 3 [])
        = Ok (Z.of_nat 1, w').
Proof.
  apply (best_action_unique_maximum (World := toy_world)
           (mkNode [0; 2; 1; 0]%float [0; 1; 1; 0]) 1 2%float (mkToy 7 3 [])).
  - reflexivity.
  - reflexivity.
  - intros [|[|[|[|b]]]] qb Hb; simpl; try done; by intros [= <-].
Defined.

(** X10: an action returned by [best_action] is a slot of the node, and its
    quality is a number, not a NaN, that no quality of the node exceeds. *)
Theorem best_action_returns_numeric_slot {World} `{Runtime World}
    (n : Node) (w w' : World) (a : Z) :
  best_action n w = Ok (a, w') →
  ∃ q, 0 ≤ a < len (action_quality n) ∧
       action_quality n !! Z.to_nat a = Some q ∧ is_nan q = false ∧
       ∀ b qb, action_quality n !! b = Some qb → (q <? qb)%float = false.
Proof.
  unfold best_action. intros (joint & Hj & Hc)%bind_Ok.
  assert (a ∈ joint) as Hin.
  { unfold random_choice in Hc.
    destruct (random_below (length joint) w) as [j w1].
    destruct (joint !! j) as [x|] eqn:Ex; [|done].
    injection Hc as <- <-. by eapply list_elem_of_lookup_2. }
  assert (∃ q0 qs, action_quality n = q0 :: qs) as (q0 & qs & E).
  { unfold joint_best_actions in Hj.
    destruct (action_quality n) as [|x xs]; [done|eauto]. }
  destruct (joint_best_actions_spec n q0 qs E)
    as (M & joint' & _ & Hj' & _ & Hmem & Hmax & _).
  rewrite Hj in Hj'. injection Hj' as <-.
  apply Hmem in Hin as (q & Ha & Hl & Heq). exists q. split_and!.
  - lia.
  - apply lookup_lt_Some in Hl. unfold len. lia.
  - done.
  - by eapply float_eqb_not_nan.
  - intros b qb Hb. destruct (q <? qb)%float eqn:Hlt; [|done].
    rewrite float_eqb_sym in Heq.
    by rewrite <- (Hmax b qb Hb), (float_eqb_ltb _ _ _ Heq Hlt).
Qed.

Lemma best_action_returns_numeric_slot_witness :
  ∃ q, 0 ≤ 2 < len (action_quality (mkNode [0; nan; 1; 1]%float [0; 1; 1; 1])) ∧
       action_quality (mkNode [0; nan; 1; 1]%float [0; 1; 1; 1]) !! Z.to_nat 2
         = Some q ∧ is_nan q = false ∧
       ∀ b qb, action_quality (mkNode [0; nan; 1; 1]%float [0; 1; 1; 1]) !! b
                 = Some qb → (q <? qb)%float = false.
Proof.
  apply (best_action_returns_numeric_slot (World := toy_world)
           (mkNode [0; nan; 1; 1]%float [0; 1; 1; 1]) (mkToy 4 3 []) (mkToy 4 3 []) 2).
  vm_compute. reflexivity.
Defined.

(** * Further properties of the targets *)

Lemma fold_inserts_lookup (g : nat → float) (j : nat) (t : list float) (i : nat) :
  (j ≤ length t)%nat →
  length (fold_left (λ t i, <[i := (default 0 (t !! i) + g i)%float]> t) (seq 0 j) t)
    = length t ∧
  fold_left (λ t i, <[i := (default 0 (t !! i) + g i)%float]> t) (seq 0 j) t !! i
    = if decide (i < j)%nat then (λ x, x + g i)%float <$> t !! i else t !! i.
Proof.
  induction j as [|j IH]; intros Hj.
  - split; [done|]. destruct (decide (i < 0)%nat); [lia|done].
  - destruct IH as [Hlen Hlook]; [lia|].
    rewrite seq_S, fold_left_app. simpl.
    set (t' := fold_left _ (seq 0 j) t) in *.
    split; [by rewrite length_insert|].
    destruct (decide (i = j)) as [->|Hne].
    + rewrite list_lookup_insert_eq by lia.
      destruct (decide (j < j)%nat) in Hlook; [lia|]. rewrite Hlook.
      destruct (lookup_is_Some_lt t j) as [x ->]; [lia|].
      case_decide; [done|lia].
    + rewrite list_lookup_insert_ne by done. rewrite Hlook.
      destruct (decide (i < j)%nat), (decide (i < S j)%nat); done || lia.
Qed.

Lemma spec_td_pass_lookup (fpow : float → Z → float) (llambda : float)
    (r t : list float) (k i : nat) :
  length t = length r →
  length (spec_td_pass fpow llambda r t k) = length r ∧
  spec_td_pass fpow llambda r t k !! i =
    if decide (i < length r - k)%nat
    then (λ x, x + default 0 (r !! (i + k)%nat)
                   * ((1 - llambda) * fpow llambda (Z.of_nat k)))%float <$> t !! i
    else t !! i.
Proof.
  intros Hlen. unfold spec_td_pass.
  destruct (fold_inserts_lookup
              (λ i, default 0 (r !! (i + k)%nat)
                    * ((1 - llambda) * fpow llambda (Z.of_nat k)))%float
              (length r - k) t i) as [H1 H2]; [lia|].
  split; [by rewrite H1|exact H2].
Qed.

Lemma spec_td_passes_lookup (fpow : float → Z → float) (llambda : float)
    (r : list float) (ks : list nat) (t : list float) (i : nat) :
  length t = length r →
  fold_left (spec_td_pass fpow llambda r) ks t !! i =
    fold_left
      (λ acc k,
         if decide (i < length r - k)%nat
         then (acc + default 0 (r !! (i + k)%nat)
                     * ((1 - llambda) * fpow llambda (Z.of_nat k)))%float
         else acc) ks <$> t !! i.
Proof.
  revert t. induction ks as [|k ks IH]; intros t Hlen; simpl.
  - by destruct (t !! i).
  - destruct (spec_td_pass_lookup fpow llambda r t k i Hlen) as [Hl Hlook].
    rewrite (IH _ Hl), Hlook.
    destruct (decide (i < length r - k)%nat), (t !! i); done.
Qed.

Lemma fold_while_below {A} (h : A → nat → A) (c m : nat) (x : A) :
  fold_left (λ acc k, if decide (k ≤ c)%nat then h acc k else acc) (seq 1 m) x
  = fold_left h (seq 1 (Nat.min m c)) x.
Proof.
  induction m as [|m IH]; [done|].
  rewrite seq_S, fold_left_app, IH. cbn [fold_left].
  destruct (decide (1 + m ≤ c)%nat).
  - replace (Nat.min (S m) c) with (S (Nat.min m c)) by lia.
    rewrite seq_S, fold_left_app. cbn [fold_left].
    by replace (Nat.min m c) with m by lia.
  - by replace (Nat.min (S m) c) with (Nat.min m c) by lia.
Qed.

(** With [lambda = 2^600] the power for the lookahead 2 overflows, and the
    computation is aborted by [OverflowError] on a history of three steps. *)
Example td_lambda_estimate_overflow :
  py_pow 0x1p600 1 = Ok 0x1p600%float ∧
  py_pow 0x1p600 2 = Raise OverflowError ∧
  td_lambda_estimate py_pow 0x1p600 (take 3 history_one_reward)
    = Raise OverflowError.
Proof. repeat split; vm_compute; reflexivity. Qed.

(** X11: the targets fail only with what [**] raises, and otherwise come in
    closed form.  When the powers of [lambda] for the exponents
    [0 .. min(9, n - 1)] are computed without error, there is one target per
    step, and the target of step [i] is the reward of the step times
    [(1 - lambda) * lambda^0] plus, added in order, the rewards of the next
    steps, up to nine of them, each times [(1 - lambda) * lambda^k]; so the
    targets depend on the rewards only, not on the states or actions.  When
    the computation raises, the exception is the one that [**] raised for one
    of these exponents: no subscript of the two loops is out of range. *)
Theorem td_lambda_estimate_closed_form (fpow : float → Z → result float)
    (llambda : float) (history : list (state * Z * float)) :
  ((∀ k, 0 ≤ k ≤ Z.min 9 (len history - 1) → ∃ p, fpow llambda k = Ok p) →
   td_lambda_estimate fpow llambda history =
     Ok (td_closed (pow_value fpow) llambda (snd <$> history)
           <$> seq 0 (length history))) ∧
  (∀ e, td_lambda_estimate fpow llambda history = Raise e →
     ∃ k, 0 ≤ k ≤ Z.min 9 (len history - 1) ∧ fpow llambda k = Raise e).
Proof.
  split.
  - intros Hpow.
    destruct (td_lambda_estimate_passes fpow (pow_value fpow) llambda history)
      as [-> Hlen].
    { intros k Hk. unfold pow_value. by destruct (Hpow k Hk) as [p ->]. }
    f_equal. apply list_eq. intros i.
    rewrite spec_td_passes_lookup by (by rewrite !length_fmap).
    rewrite !list_lookup_fmap.
    destruct (decide (i < length history)%nat) as [Hi|Hi].
    + rewrite lookup_seq_lt by done.
      destruct (lookup_is_Some_lt history i Hi) as [x Hx].
      assert (∀ A B (f : A → B) a, f <$> Some a = Some (f a)) as Hsome by done.
      rewrite Hx, !Hsome. f_equal.
      change (0 + i)%nat with i. unfold td_closed. rewrite list_lookup_fmap, Hx, Hsome.
      cbn [default]. rewrite !length_fmap.
      etrans.
      { apply (fold_left_ext_in _
                 (λ acc k,
                    if decide (k ≤ length history - 1 - i)%nat
                    then (acc + default 0 ((snd <$> history) !! (i + k)%nat)
                                * ((1 - llambda)
                                   * pow_value fpow llambda (Z.of_nat k)))%float
                    else acc)).
        intros acc k _. cbv beta. rewrite ?length_fmap.
        destruct (decide (i < length history - k)%nat),
                 (decide (k ≤ length history - 1 - i)%nat); done || lia. }
      rewrite fold_while_below. do 2 f_equal. lia.
    + rewrite lookup_seq_ge by lia. by rewrite (lookup_ge_None_2 history) by lia.
  - intros e. unfold td_lambda_estimate.
    destruct (td_base fpow llambda history) as [td0|e0] eqn:Hbase;
      cbn [mbind result_bind].
    + apply td_base_length in Hbase.
      intros (l1 & j & l2 & td1 & Hl & Hl1 & Hj)%for_each_raise.
      assert (length td1 = length history) as Hlen1.
      { revert Hl1 Hbase.
        apply (for_each_inv _ _ (λ td, length td = length history)).
        intros k td2 td3. apply td_pass_length. }
      assert (j ∈ range 1 (Z.min 10 (len history))) as Hin.
      { rewrite Hl. apply elem_of_app. right. left. }
      rewrite (range_nat 1) in Hin.
      apply list_elem_of_fmap in Hin as (k & -> & [Hk1 Hk2]%elem_of_seq).
      destruct (fpow llambda (Z.of_nat k)) as [p|e1] eqn:Hp;
        cbn [mbind result_bind] in Hj.
      * destruct (td_pass_pure (λ _ _, p) llambda history k td1 Hlen1) as [Hok _].
        rewrite Hok in Hj. discriminate.
      * injection Hj as ->. exists (Z.of_nat k). split; [unfold len in *; lia|done].
    + intros [= ->]. unfold td_base in Hbase.
      apply for_each_raise in Hbase as (l1 & h & l2 & td1 & Hl & _ & Hh).
      cbv zeta in Hh. destruct (fpow llambda 0) as [p|e1] eqn:Hp; [done|].
      injection Hh as ->. exists 0. split; [|done].
      unfold len. rewrite Hl, length_app. simpl. lia.
Qed.

Lemma td_lambda_estimate_closed_form_witness :
  td_lambda_estimate py_pow 0x1p-1 history_one_reward =
    Ok (td_closed (pow_value py_pow) 0x1p-1 (snd <$> history_one_reward)
          <$> seq 0 (length history_one_reward)).
Proof.
  apply (proj1 (td_lambda_estimate_closed_form py_pow 0x1p-1 history_one_reward)).
  intros k Hk. apply pow_unit_interval; [reflexivity|reflexivity|lia].
Defined.

(** * Further properties of the episodes *)

Lemma choose_action_used {World} `{Runtime World} (epsilon : float)
    (k : Knowledge) (obs : list Z) (used : Z) (w w' : World) (a u : Z) :
  choose_action epsilon k obs used w = Ok (a, u, w') →
  (u = used ∨ u = used + 1) ∧ (nodes k !! obs = None → u = used).
Proof.
  unfold choose_action. destruct (random_uniform w) as [r w1].
  assert ((let '(action, w0) := action_space_sample w1 in Ok (action, used, w0))
          = Ok (a, u, w') → u = used) as Hsample.
  { destruct (action_space_sample w1) as [a' w2]. by intros [= _ <- _]. }
  destruct (epsilon <? r)%float; [|by intros ->%Hsample; auto].
  rewrite !get_node_for_state_lookup. cbn [mbind result_bind].
  destruct (nodes k !! obs) as [nd|] eqn:E.
  - rewrite bool_decide_eq_true_2 by eauto.
    destruct (best_action nd w1) as [[a' w2]|]; [|done].
    intros [= _ <- _]. split; [by right|done].
  - rewrite bool_decide_eq_false_2 by (intros [? [=]]).
    by intros ->%Hsample; auto.
Qed.

(** X12: what the step loop has accumulated when it returns: the cumulative
    reward is the rewards of the recorded steps added in order to the
    starting value, the first recorded state is the observation the loop
    started from, and [best_actions_used] has grown by at most the number
    of recorded steps, and not at all when the table is empty. *)
Theorem episode_loop_accounts {World} `{Runtime World} (ts : list Z)
    (epsilon : float) (k : Knowledge) (v v' : episode_vars) (w w' : World)
    (done : bool) :
  episode_loop ts epsilon k v w = Ok (v', done, w') →
  ∃ new,
    history v' = history v ++ new ∧
    cumulative_reward v' = fold_left PrimFloat.add (snd <$> new) (cumulative_reward v) ∧
    best_actions_used v ≤ best_actions_used v' ≤ best_actions_used v + len new ∧
    (nodes k = ∅ → best_actions_used v' = best_actions_used v) ∧
    (∀ h, head new = Some h → fst (fst h) = observation v).
Proof.
  revert v w. induction ts as [|t ts IH]; intros v w; cbn [episode_loop].
  - intros [= <- <- <-]. exists []. rewrite app_nil_r.
    split_and!; try done; unfold len; simpl; lia.
  - intros ([[a u] w1] & Hc & Hrest)%bind_Ok. cbv beta iota in Hrest.
    apply choose_action_used in Hc as [Hu Hnone].
    destruct (env_step a w1) as [[[obs reward] d] w2].
    destruct d.
    + injection Hrest as <- <- <-. cbn [history cumulative_reward best_actions_used].
      exists [(observation v, a, reward)]. split_and!; try done.
      * lia.
      * unfold len. simpl. lia.
      * intros E. apply Hnone. by rewrite E, lookup_empty.
      * by intros h [= <-].
    + apply IH in Hrest as (new & Hh & Hcr & Hused & Hempty & _).
      cbn [history cumulative_reward best_actions_used] in *.
      exists ((observation v, a, reward) :: new). split_and!.
      * by rewrite Hh, <- app_assoc.
      * by rewrite Hcr.
      * lia.
      * unfold len in *. simpl. lia.
      * intros E. rewrite (Hempty E). apply Hnone. by rewrite E, lookup_empty.
      * by intros h [= <-].
Qed.

Lemma episode_loop_accounts_witness :
  ∃ v' w',
    episode_loop (range 0 1000) 0x1p-3 Knowledge_init
      (mkVars board_a 0%float [] 0 0 0) (mkToy 0 3 []) = Ok (v', true, w') ∧
    ∃ new,
      history v' = [] ++ new ∧
      cumulative_reward v' = fold_left PrimFloat.add (snd <$> new) 0%float ∧
      0 ≤ best_actions_used v' ≤ 0 + len new ∧
      (nodes Knowledge_init = ∅ → best_actions_used v' = 0) ∧
      (∀ h, head new = Some h → fst (fst h) = board_a).
Proof.
  do 2 eexists. split; [vm_compute; reflexivity|].
  eapply (episode_loop_accounts (World := toy_world) (range 0 1000) 0x1p-3
            Knowledge_init (mkVars board_a 0%float [] 0 0 0) _ (mkToy 0 3 [])).
  vm_compute. reflexivity.
Defined.

Lemma td_updates_states (history : list (state * Z * float)) (td : list float) :
  length td = length history → states_of (td_updates history td) = states_of history.
Proof.
  revert td. induction history as [|h history IH]; intros [|t td] Hlen;
    try discriminate; [done|].
  injection Hlen as Hlen. unfold states_of, td_updates in *. simpl.
  f_equal. by apply IH.
Qed.

(** X13: when an episode has been played and folded, the states known are
    the states known before and the states the episode went through, and a
    well-formed table stays well formed. *)
Theorem run_episode_learns_its_states {World} `{Runtime World}
    (fpow : float → Z → result float) (alpha epsilon llambda : float)
    (k k' : Knowledge) (moves moves' steps : Z) (done : bool) (w w' : World) :
  run_episode fpow alpha epsilon llambda k moves w
    = Ok (k', moves', (steps, done), w') →
  ∃ v,
    episode_loop (range 0 1000) epsilon k
      (mkVars (fst (env_reset w)) 0%float [] 0 moves 0) (snd (env_reset w))
      = Ok (v, done, w') ∧
    len (history v) = steps ∧
    dom (nodes k') = list_to_set (states_of (history v)) ∪ dom (nodes k) ∧
    (wf_knowledge k → wf_knowledge k').
Proof.
  intros (v & td & Hloop & Hsteps & _ & _ & _ & Hlen & Hadd & _)%run_episode_inv.
  exists v. split_and!; try done.
  - by rewrite (add_all_dom _ _ _ _ Hadd), td_updates_states.
  - intros Hwf. by eapply add_all_wf.
Qed.

Lemma run_episode_learns_its_states_witness :
  ∃ k' w',
    run_episode py_pow 0x1p-1 0x1p-3 0x1p-1 Knowledge_init 0 (mkToy 0 3 [])
      = Ok (k', 3, (3, true), w') ∧
    ∃ v,
      episode_loop (range 0 1000) 0x1p-3 Knowledge_init
        (mkVars (fst (env_reset (mkToy 0 3 []))) 0%float [] 0 0 0)
        (snd (env_reset (mkToy 0 3 [])))
        = Ok (v, true, w') ∧
      len (history v) = 3 ∧
      dom (nodes k') = list_to_set (states_of (history v)) ∪ dom (nodes Knowledge_init) ∧
      (wf_knowledge Knowledge_init → wf_knowledge k').
Proof.
  do 2 eexists. split; [vm_compute; reflexivity|].
  eapply (run_episode_learns_its_states (World := toy_world) py_pow
            0x1p-1 0x1p-3 0x1p-1 Knowledge_init _ 0 3 3 true (mkToy 0 3 [])).
  vm_compute. reflexivity.
Defined.

(** X14: the loop over episodes never loses knowledge: a well-formed table
    stays well formed, every state known before is known after, and [size]
    grows by at most 1000 per episode. *)
Theorem main_loop_keeps_knowledge {World} `{Runtime World}
    (fpow : float → Z → result float) (n : nat) (alpha epsilon llambda : float)
    (k k' : Knowledge) (moves moves' : Z) (log log' : list (Z * bool))
    (w w' : World) :
  main_loop fpow n alpha epsilon llambda k moves log w = Ok (k', moves', log', w') →
  (wf_knowledge k → wf_knowledge k') ∧
  dom (nodes k) ⊆ dom (nodes k') ∧
  (Knowledge_size k ≤ Knowledge_size k' ≤ Knowledge_size k + 1000 * n)%nat.
Proof.
  revert k moves log w. induction n as [|n IH]; intros k moves log w; cbn [main_loop].
  - intros [= <- <- <- <-]. split_and!; [done|done|lia|lia].
  - intros ([[[k1 m1] [steps done]] w1] & Hrun & Hrest)%bind_Ok.
    cbv beta iota in Hrest.
    apply IH in Hrest as (Hwf & Hdom & Hsize).
    apply run_episode_inv in Hrun
      as (v & td & _ & Hsteps & Hrange & _ & _ & Hlen & Hadd & _).
    pose proof (add_all_size_bounds _ _ _ _ Hadd) as Hb.
    rewrite td_updates_length in Hb by done.
    split_and!.
    + intros Hk. apply Hwf. by eapply add_all_wf.
    + etrans; [|exact Hdom]. rewrite (add_all_dom _ _ _ _ Hadd).
      apply union_subseteq_r.
    + lia.
    + unfold len in Hsteps. lia.
Qed.

Lemma main_loop_keeps_knowledge_witness :
  ∃ k' w',
    main_loop py_pow 2 0x1p-1 0x1p-3 0x1p-1 Knowledge_init 0 []
      (mkToy 0 0 [3%nat; 2%nat])
      = Ok (k', 5, [(3, true); (2, true)], w') ∧
    (wf_knowledge Knowledge_init → wf_knowledge k') ∧
    dom (nodes Knowledge_init) ⊆ dom (nodes k') ∧
    (Knowledge_size Knowledge_init ≤ Knowledge_size k'
     ≤ Knowledge_size Knowledge_init + 1000 * 2)%nat.
Proof.
  do 2 eexists. split; [vm_compute; reflexivity|].
  eapply (main_loop_keeps_knowledge (World := toy_world) py_pow 2
            0x1p-1 0x1p-3 0x1p-1 Knowledge_init _ 0 5 []
            [(3, true); (2, true)] (mkToy 0 0 [3%nat; 2%nat])).
  vm_compute. reflexivity.
Defined.

(** X15: the high score after any run of episodes is a number, not a NaN:
    it is [0.0] or the cumulative reward of one of the episodes, no
    episode's cumulative reward exceeds it, it is not below [0.0], and
    further episodes never lower it. *)
Theorem high_score_is_running_maximum (crs more : list float) :
  is_nan (high_score_after crs) = false ∧
  (high_score_after crs <? 0)%float = false ∧
  (∀ cr, cr ∈ crs → (high_score_after crs <? cr)%float = false) ∧
  (high_score_after crs = 0%float ∨ high_score_after crs ∈ crs) ∧
  (high_score_after (crs ++ more) <? high_score_after crs)%float = false.
Proof.
  unfold high_score_after, update_high_score.
  destruct (fold_max_spec crs 0%float) as (H1 & H2 & H3 & H4 & _).
  split_and!; auto.
  rewrite fold_left_app.
  by destruct (fold_max_spec more
                 (fold_left (λ m y, if (m <? y)%float then y else m) crs 0%float))
    as (H5 & _).
Qed.
